(** * Kudu worker thread pool and task executor

    A shallow embedding of [src/util/threadpool.cc] and
    [src/util/task_executor.cc]: the pool builder, the pool with its
    bounded FIFO queue and elastic set of worker threads, the
    future/listener protocol of [FutureTask], and the [TaskExecutor]
    adapter.

    Every critical section of the C++ code (a region executed while
    [lock_] is held) is one function on the state; a concurrent
    execution is an interleaving of such functions.  Condition
    variables are over-approximated: a thread blocked in [wait] or
    [timed_wait] may be resumed at any time, and the result of a timed
    wait is an arbitrary boolean. *)

From Stdlib Require Import ZArith List Bool Lia String.
From stdpp Require Import base option list gmap pretty.
Import ListNotations.
Local Open Scope Z_scope.

(** ** C++ [int] *)

Definition INT_MAX : Z := 2147483647.
Definition INT_MIN : Z := -2147483648.

Definition int_range (z : Z) : Prop := INT_MIN <= z <= INT_MAX.

(** Two's complement wrap-around of a 32-bit [int]; every arithmetic
    result stored in an [int] field goes through it. *)
Definition int_wrap (z : Z) : Z := (z + 2147483648) mod 4294967296 - 2147483648.

Definition int_add (a b : Z) : Z := int_wrap (a + b).
Definition int_sub (a b : Z) : Z := int_wrap (a - b).

(** ** Counting list elements *)

Fixpoint count_if {A : Type} (f : A -> bool) (l : list A) : Z :=
  match l with
  | [] => 0
  | x :: l' => (if f x then 1 else 0) + count_if f l'
  end.

(** ** Status *)

Inductive StatusCode :=
| kUninitialized | kServiceUnavailable | kNotSupported | kAborted
| kRuntimeError | kOtherError (n : nat).

Inductive Status :=
| OK
| Error (code : StatusCode) (msg : string).

Definition ok (s : Status) : bool :=
  match s with OK => true | Error _ _ => false end.

Definition IsUninitialized (s : Status) : bool :=
  match s with Error kUninitialized _ => true | _ => false end.

Definition IsServiceUnavailable (s : Status) : bool :=
  match s with Error kServiceUnavailable _ => true | _ => false end.

Definition Uninitialized (msg : string) : Status := Error kUninitialized msg.
Definition ServiceUnavailable (msg : string) : Status := Error kServiceUnavailable msg.
Definition NotSupported (msg : string) : Status := Error kNotSupported msg.
Definition Aborted (msg : string) : Status := Error kAborted msg.

#[global] Instance StatusCode_eq_dec : EqDecision StatusCode.
Proof. solve_decision. Defined.

#[global] Instance Status_eq_dec : EqDecision Status.
Proof. solve_decision. Defined.

(** ** MonoDelta

    The class lives in [util/monotime.h]; a delta is a signed number of
    nanoseconds. *)

Record MonoDelta := { nano_delta : Z }.

Definition FromMilliseconds (ms : Z) : MonoDelta := {| nano_delta := ms * 1000000 |}.
Definition ToMicroseconds (d : MonoDelta) : Z := nano_delta d / 1000.
Definition ToMilliseconds (d : MonoDelta) : Z := nano_delta d / 1000000.

(** ** ThreadPoolBuilder *)

Record ThreadPoolBuilder := mkBuilder {
  b_name_ : string;
  b_min_threads_ : Z;
  b_max_threads_ : Z;
  b_max_queue_size_ : Z;
  b_timeout_ : MonoDelta
}.

(** [CHECK_GE] / [CHECK_GT]: a failed check aborts the process, which
    the setters report as [None]. *)
Definition CHECK {A : Type} (cond : bool) (k : A) : option A :=
  if cond then Some k else None.

(** [ncpus] is the value of [base::NumCPUs()]. *)
Definition ThreadPoolBuilder_new (ncpus : Z) (name : string) : ThreadPoolBuilder :=
  {| b_name_ := name;
     b_min_threads_ := 0;
     b_max_threads_ := ncpus;
     b_max_queue_size_ := INT_MAX;
     b_timeout_ := FromMilliseconds 500 |}.

Definition set_min_threads (min_threads : Z) (b : ThreadPoolBuilder)
  : option ThreadPoolBuilder :=
  CHECK (0 <=? min_threads)
    (mkBuilder (b_name_ b) min_threads (b_max_threads_ b)
               (b_max_queue_size_ b) (b_timeout_ b)).

Definition set_max_threads (max_threads : Z) (b : ThreadPoolBuilder)
  : option ThreadPoolBuilder :=
  CHECK (0 <? max_threads)
    (mkBuilder (b_name_ b) (b_min_threads_ b) max_threads
               (b_max_queue_size_ b) (b_timeout_ b)).

Definition set_max_queue_size (max_queue_size : Z) (b : ThreadPoolBuilder)
  : option ThreadPoolBuilder :=
  CHECK (0 <? max_queue_size)
    (mkBuilder (b_name_ b) (b_min_threads_ b) (b_max_threads_ b)
               max_queue_size (b_timeout_ b)).

Definition set_timeout (timeout : MonoDelta) (b : ThreadPoolBuilder)
  : option ThreadPoolBuilder :=
  Some (mkBuilder (b_name_ b) (b_min_threads_ b) (b_max_threads_ b)
                  (b_max_queue_size_ b) timeout).

(** Builders a program can hold: the constructor followed by setter
    calls whose checks passed.  Arguments are C++ [int]s. *)
Inductive Built (ncpus : Z) : ThreadPoolBuilder -> Prop :=
| Built_new name :
    Built ncpus (ThreadPoolBuilder_new ncpus name)
| Built_min n b b' :
    Built ncpus b -> int_range n -> set_min_threads n b = Some b' -> Built ncpus b'
| Built_max n b b' :
    Built ncpus b -> int_range n -> set_max_threads n b = Some b' -> Built ncpus b'
| Built_queue n b b' :
    Built ncpus b -> int_range n -> set_max_queue_size n b = Some b' -> Built ncpus b'
| Built_timeout d b b' :
    Built ncpus b -> set_timeout d b = Some b' -> Built ncpus b'.

(** What the checks of the setters establish. *)
Record builder_ok (ncpus : Z) (b : ThreadPoolBuilder) : Prop := {
  bok_min : 0 <= b_min_threads_ b <= INT_MAX;
  bok_max : b_max_threads_ b = ncpus \/ 1 <= b_max_threads_ b <= INT_MAX;
  bok_queue : 1 <= b_max_queue_size_ b <= INT_MAX
}.

(** ** ThreadPool *)

(** A trace handle ([Trace*]) is identified by a number; its reference
    count changes are recorded in the event log. *)
Definition Trace := nat.

Section ThreadPool.

Context {Runnable : Type}.

Record QueueEntry := mkEntry {
  runnable : Runnable;
  trace : option Trace
}.

Record ThreadPool := mkPool {
  name_ : string;
  min_threads_ : Z;
  max_threads_ : Z;
  max_queue_size_ : Z;
  timeout_ : MonoDelta;
  pool_status_ : Status;
  num_threads_ : Z;
  active_threads_ : Z;
  queue_size_ : Z;
  queue_ : list QueueEntry
}.

Definition with_pool_status (s : Status) (p : ThreadPool) : ThreadPool :=
  mkPool (name_ p) (min_threads_ p) (max_threads_ p) (max_queue_size_ p)
         (timeout_ p) s (num_threads_ p) (active_threads_ p)
         (queue_size_ p) (queue_ p).

Definition with_num_threads (n : Z) (p : ThreadPool) : ThreadPool :=
  mkPool (name_ p) (min_threads_ p) (max_threads_ p) (max_queue_size_ p)
         (timeout_ p) (pool_status_ p) n (active_threads_ p)
         (queue_size_ p) (queue_ p).

Definition with_active_threads (n : Z) (p : ThreadPool) : ThreadPool :=
  mkPool (name_ p) (min_threads_ p) (max_threads_ p) (max_queue_size_ p)
         (timeout_ p) (pool_status_ p) (num_threads_ p) n
         (queue_size_ p) (queue_ p).

Definition with_queue_size (n : Z) (p : ThreadPool) : ThreadPool :=
  mkPool (name_ p) (min_threads_ p) (max_threads_ p) (max_queue_size_ p)
         (timeout_ p) (pool_status_ p) (num_threads_ p) (active_threads_ p)
         n (queue_ p).

Definition with_queue (q : list QueueEntry) (p : ThreadPool) : ThreadPool :=
  mkPool (name_ p) (min_threads_ p) (max_threads_ p) (max_queue_size_ p)
         (timeout_ p) (pool_status_ p) (num_threads_ p) (active_threads_ p)
         (queue_size_ p) q.

(** Where a worker thread stands in [DispatchThread]. *)
Inductive WorkerPc :=
| WStart                      (* created, has not yet taken [lock_] *)
| WWaiting                    (* blocked in [not_empty_.wait] / [timed_wait] *)
| WFetched (e : QueueEntry)   (* popped [e], unlocked, trace not yet adopted *)
| WRunning (e : QueueEntry)   (* inside [entry.runnable->Run()] *)
| WExited.                    (* left [DispatchThread] *)

Record Worker := mkWorker {
  permanent : bool;
  pc : WorkerPc
}.

Inductive Event :=
| EvThreadCreate (perm : bool) (s : Status)  (* a call of [Thread::Create] and its result *)
| EvWarning (s : Status)                     (* [LOG(WARNING)] of a spawn failure *)
| EvAddRef (t : Trace)
| EvRelease (t : Trace)
| EvAdopt (t : option Trace)
| EvRun (r : Runnable).

(** The pool object together with the threads created for it and the
    log of its externally visible actions. *)
Record World := mkWorld {
  pool : ThreadPool;
  threads : list Worker;
  log : list Event
}.

Definition with_pool (f : ThreadPool -> ThreadPool) (w : World) : World :=
  mkWorld (f (pool w)) (threads w) (log w).

Definition emit (evs : list Event) (w : World) : World :=
  mkWorld (pool w) (threads w) (log w ++ evs).

Definition ThreadPool_new (b : ThreadPoolBuilder) : World :=
  mkWorld
    (mkPool (b_name_ b) (b_min_threads_ b) (b_max_threads_ b)
            (b_max_queue_size_ b) (b_timeout_ b)
            (Uninitialized "The pool was not initialized.")
            0 0 0 [])
    [] [].

(** [spawn] is the status [Thread::Create] returns for this call. *)
Definition CreateThreadUnlocked (spawn : Status) (w : World) : Status * World :=
  let perm := num_threads_ (pool w) <? min_threads_ (pool w) in
  let w := emit [EvThreadCreate perm spawn] w in
  if ok spawn
  then (spawn,
        mkWorld (with_num_threads (int_add (num_threads_ (pool w)) 1) (pool w))
                (threads w ++ [mkWorker perm WStart])
                (log w))
  else (spawn, w).

Definition release_of (e : QueueEntry) : list Event :=
  match trace e with Some t => [EvRelease t] | None => [] end.

Definition ClearQueue (w : World) : World :=
  let w := emit (concat (map release_of (queue_ (pool w)))) w in
  let w := with_pool (with_queue []) w in
  with_pool (with_queue_size 0) w.

Definition shut_down_status : Status :=
  ServiceUnavailable "The pool has been shut down.".

(** [Shutdown] either returns or blocks in [no_threads_cond_.wait]. *)
Inductive ShutdownResult :=
| ShutdownReturned (w : World)
| ShutdownWaiting (w : World).

Definition Shutdown_loop (w : World) : ShutdownResult :=
  if 0 <? num_threads_ (pool w) then ShutdownWaiting w else ShutdownReturned w.

Definition Shutdown (w : World) : ShutdownResult :=
  let w := with_pool (with_pool_status shut_down_status) w in
  let w := ClearQueue w in
  Shutdown_loop w.

Definition shutdown_world (r : ShutdownResult) : World :=
  match r with ShutdownReturned w => w | ShutdownWaiting w => w end.

(** The loop of [Init]: [n] iterations remain, [i] is the loop index.
    A spawn failure calls [Shutdown] while [Init] still holds the
    non-recursive [lock_], so that call never returns: [None]. *)
Fixpoint Init_loop (spawns : nat -> Status) (n i : nat) (w : World)
  : option (Status * World) :=
  match n with
  | O => Some (OK, w)
  | S n' =>
      let '(status, w) := CreateThreadUnlocked (spawns i) w in
      if ok status then Init_loop spawns n' (S i) w else None
  end.

Definition Init (spawns : nat -> Status) (w : World) : option (Status * World) :=
  if negb (IsUninitialized (pool_status_ (pool w)))
  then Some (NotSupported "The thread pool is already initialized", w)
  else
    let w := with_pool (with_pool_status OK) w in
    Init_loop spawns (Z.to_nat (min_threads_ (pool w))) 0 w.

Definition queue_full_msg (n : Z) : string :=
  ("Thread pool queue is full (" ++ pretty n ++ " items)")%string.

(** The tail of [Submit]: build the queue entry, retain the trace,
    push, count.  [cur] is [Trace::CurrentTrace()] of the submitting
    thread. *)
Definition Submit_enqueue (task : Runnable) (cur : option Trace) (w : World)
  : Status * World :=
  let e := mkEntry task cur in
  let w := emit (match trace e with Some t => [EvAddRef t] | None => [] end) w in
  let w := with_pool (fun p => with_queue (queue_ p ++ [e]) p) w in
  let w := with_pool (fun p => with_queue_size (int_add (queue_size_ p) 1) p) w in
  (OK, w).

Definition Submit (task : Runnable) (cur : option Trace) (spawn : Status) (w : World)
  : Status * World :=
  if negb (ok (pool_status_ (pool w))) then (pool_status_ (pool w), w)
  else if queue_size_ (pool w) =? max_queue_size_ (pool w)
  then (ServiceUnavailable (queue_full_msg (queue_size_ (pool w))), w)
  else
    let inactive_threads :=
      int_sub (num_threads_ (pool w)) (active_threads_ (pool w)) in
    let additional_threads :=
      int_sub (int_add (queue_size_ (pool w)) 1) inactive_threads in
    if (0 <? additional_threads) && (num_threads_ (pool w) <? max_threads_ (pool w))
    then
      let '(status, w) := CreateThreadUnlocked spawn w in
      if negb (ok status)
      then if num_threads_ (pool w) =? 0
           then (status, w)
           else Submit_enqueue task cur (emit [EvWarning status] w)
      else Submit_enqueue task cur w
    else Submit_enqueue task cur w.

(** *** DispatchThread

    The code after the loop: decrement [num_threads_] and, for the last
    thread out, [CHECK] that the queue is empty.  [None] is the fatal
    check failure.  ([DCHECK_EQ(0, queue_size_)] is compiled in debug
    builds only; it follows from the [CHECK] wherever [queue_size_]
    mirrors the queue.) *)
Definition DispatchThread_exit (w : World) : option (World * WorkerPc) :=
  let w := with_pool (fun p => with_num_threads (int_sub (num_threads_ p) 1) p) w in
  if num_threads_ (pool w) =? 0
  then match queue_ (pool w) with
       | [] => Some (w, WExited)
       | _ :: _ => None
       end
  else Some (w, WExited).

(** One pass from the top of the [while (true)] body, lock held, up to
    the point where the thread releases the lock or leaves the loop. *)
Definition DispatchThread_top (w : World) : option (World * WorkerPc) :=
  if negb (ok (pool_status_ (pool w))) then DispatchThread_exit w
  else match queue_ (pool w) with
       | [] => Some (w, WWaiting)
       | entry :: rest =>
           let w := with_pool (with_queue rest) w in
           let w := with_pool (fun p => with_queue_size (int_sub (queue_size_ p) 1) p) w in
           let w := with_pool (fun p => with_active_threads (int_add (active_threads_ p) 1) p) w in
           Some (w, WFetched entry)
       end.

(** Return from the wait on [not_empty_] with the lock reacquired.
    [notified] is the result of [timed_wait] ([false]: timeout). *)
Definition DispatchThread_wake (perm notified : bool) (w : World)
  : option (World * WorkerPc) :=
  if perm then DispatchThread_top w
  else if negb notified
       then match queue_ (pool w) with
            | [] => DispatchThread_exit w
            | _ :: _ => DispatchThread_top w
            end
       else DispatchThread_top w.

(** [ADOPT_TRACE] and the release of the queue's reference, outside
    the lock. *)
Definition DispatchThread_adopt (entry : QueueEntry) (w : World) : World * WorkerPc :=
  (emit (EvAdopt (trace entry) :: release_of entry ++ [EvRun (runnable entry)]) w,
   WRunning entry).

(** [Run()] has returned: relock, decrement [active_threads_], loop. *)
Definition DispatchThread_done (w : World) : option (World * WorkerPc) :=
  let w := with_pool (fun p => with_active_threads (int_sub (active_threads_ p) 1) p) w in
  DispatchThread_top w.

(** The next atomic step of worker thread [i]. *)
Definition worker_step (i : nat) (notified : bool) (w : World) : option World :=
  match threads w !! i with
  | None => None
  | Some wk =>
      let r :=
        match pc wk with
        | WStart => DispatchThread_top w
        | WWaiting => DispatchThread_wake (permanent wk) notified w
        | WFetched e => Some (DispatchThread_adopt e w)
        | WRunning e => DispatchThread_done w
        | WExited => None
        end in
      match r with
      | None => None
      | Some (w', pc') =>
          Some (mkWorld (pool w') (<[i := mkWorker (permanent wk) pc']> (threads w')) (log w'))
      end
  end.

(** *** Interleavings *)

Inductive Action :=
| ActInit (spawns : nat -> Status)
| ActSubmit (task : Runnable) (cur : option Trace) (spawn : Status)
| ActShutdown
| ActWorker (i : nat) (notified : bool).

Definition step (a : Action) (w : World) : option World :=
  match a with
  | ActInit spawns => snd <$> Init spawns w
  | ActSubmit task cur spawn => Some (snd (Submit task cur spawn w))
  | ActShutdown => Some (shutdown_world (Shutdown w))
  | ActWorker i notified => worker_step i notified w
  end.

Fixpoint run (acts : list Action) (w : World) : option World :=
  match acts with
  | [] => Some w
  | a :: acts' =>
      match step a w with
      | Some w' => run acts' w'
      | None => None
      end
  end.

(** Worlds a program can reach from a freshly constructed pool. *)
Inductive reachable (ncpus : Z) : World -> Prop :=
| reach_new b :
    int_range ncpus -> Built ncpus b -> reachable ncpus (ThreadPool_new b)
| reach_step a w w' :
    reachable ncpus w -> step a w = Some w' -> reachable ncpus w'.

(** *** Observations on a call *)

(** What a call appended to the log. *)
Definition new_events (before after : World) : list Event :=
  drop (length (log before)) (log after).

(** The calls of [Thread::Create] among some events: the [permanent]
    argument handed to the new thread and the returned status. *)
Definition creations (evs : list Event) : list (bool * Status) :=
  omap (fun ev => match ev with
                  | EvThreadCreate perm s => Some (perm, s)
                  | _ => None
                  end) evs.

(** The test at line 167 of [Submit], on the mathematical integers. *)
Definition spawn_wanted (p : ThreadPool) : Prop :=
  0 < (queue_size_ p + 1) - (num_threads_ p - active_threads_ p)
  /\ num_threads_ p < max_threads_ p.

(** The same test as the code computes it. *)
Definition Submit_spawns (p : ThreadPool) : bool :=
  (0 <? int_sub (int_add (queue_size_ p) 1)
                (int_sub (num_threads_ p) (active_threads_ p)))
  && (num_threads_ p <? max_threads_ p).

(** *** The pool invariant *)

Definition live (wk : Worker) : bool :=
  match pc wk with WExited => false | _ => true end.

Definition busy (wk : Worker) : bool :=
  match pc wk with WFetched _ | WRunning _ => true | _ => false end.

Definition live_permanent (wk : Worker) : bool := live wk && permanent wk.

Record Inv (w : World) : Prop := {
  inv_min : 0 <= min_threads_ (pool w) <= INT_MAX;
  inv_max : int_range (max_threads_ (pool w));
  inv_maxq : 1 <= max_queue_size_ (pool w) <= INT_MAX;
  inv_queue_size : queue_size_ (pool w) = Z.of_nat (length (queue_ (pool w)));
  inv_queue_bound : queue_size_ (pool w) <= max_queue_size_ (pool w);
  inv_num : num_threads_ (pool w) = count_if live (threads w);
  inv_num_bound : num_threads_ (pool w) <= INT_MAX;
  inv_active : active_threads_ (pool w) = count_if busy (threads w);
  inv_permanent :
    ok (pool_status_ (pool w)) = true ->
    count_if live_permanent (threads w) = min_threads_ (pool w);
  inv_stopped : ok (pool_status_ (pool w)) = false -> queue_ (pool w) = [];
  inv_uninit : IsUninitialized (pool_status_ (pool w)) = true -> threads w = []
}.

(** The state of the loop in [Init] after [i] iterations. *)
Record InitInv (i : nat) (w : World) : Prop := {
  ii_min : 0 <= min_threads_ (pool w) <= INT_MAX;
  ii_max : int_range (max_threads_ (pool w));
  ii_maxq : 1 <= max_queue_size_ (pool w) <= INT_MAX;
  ii_status : pool_status_ (pool w) = OK;
  ii_queue : queue_ (pool w) = [];
  ii_queue_size : queue_size_ (pool w) = 0;
  ii_num : num_threads_ (pool w) = Z.of_nat i;
  ii_live : count_if live (threads w) = Z.of_nat i;
  ii_perm : count_if live_permanent (threads w) = Z.of_nat i;
  ii_active : active_threads_ (pool w) = 0;
  ii_busy : count_if busy (threads w) = 0
}.

End ThreadPool.


(** ** FutureTask *)

Inductive TaskState :=
| kTaskPendingState
| kTaskRunningState
| kTaskFinishedState
| kTaskAbortedState.

#[global] Instance TaskState_eq_dec : EqDecision TaskState.
Proof. solve_decision. Defined.

(** A [FutureCallback] object is identified by a number; calls of its
    methods are recorded as events. *)
Definition ListenerCallback := nat.

Inductive FutureEvent :=
| EvTaskRun                                      (* [task_->Run()] *)
| EvTaskAbort                                    (* [task_->Abort()] *)
| EvOnSuccess (cb : ListenerCallback)            (* [callback->OnSuccess()] *)
| EvOnFailure (cb : ListenerCallback) (s : Status)  (* [callback->OnFailure(s)] *)
| EvCountDown.                                   (* [latch_.CountDown()] *)

#[global] Instance FutureEvent_eq_dec : EqDecision FutureEvent.
Proof. solve_decision. Defined.

Section FutureTask.

(** The state of a user task object. *)
Context {T : Type}.

(** The abstract class [Task]: an object with its two virtual
    methods. *)
Record Task := mkTask {
  task_obj : T;
  task_Run : T -> Status * T;
  task_Abort : T -> bool * T
}.

Definition Task_Run (t : Task) : Status * Task :=
  let '(s, o) := task_Run t (task_obj t) in
  (s, mkTask o (task_Run t) (task_Abort t)).

Definition Task_Abort (t : Task) : bool * Task :=
  let '(b, o) := task_Abort t (task_obj t) in
  (b, mkTask o (task_Run t) (task_Abort t)).

(** [latch_] is the count of the [CountDownLatch]. *)
Record FutureTask := mkFutureTask {
  state_ : TaskState;
  status_ : Status;
  task_ : Task;
  listeners_ : list ListenerCallback;
  latch_ : nat
}.

(** The constructor initialises [state_], [task_] and [latch_];
    [status_] is default-constructed.  [default_status] is the value of
    a default-constructed [Status] ([util/status.h]); in Kudu that is
    [OK]. *)
Definition FutureTask_new (default_status : Status) (task : Task) : FutureTask :=
  mkFutureTask kTaskPendingState default_status task [] 1.

Definition set_state (state : TaskState) (ft : FutureTask) : bool * FutureTask :=
  if decide (state_ ft = kTaskAbortedState) then (false, ft)
  else (true, mkFutureTask state (status_ ft) (task_ ft) (listeners_ ft) (latch_ ft)).

(** [CountDownLatch::CountDown]: the count goes down by one and stops
    at zero. *)
Definition CountDown (ft : FutureTask) : FutureTask :=
  mkFutureTask (state_ ft) (status_ ft) (task_ ft) (listeners_ ft) (Nat.pred (latch_ ft)).

Definition aborted_before_run : Status := Aborted "Task was aborted before it ran".

Definition FutureTask_Run (ft : FutureTask) : FutureTask * list FutureEvent :=
  let '(started, ft) := set_state kTaskRunningState ft in
  if negb started then
    let s := aborted_before_run in
    let evs := map (fun callback => EvOnFailure callback s) (listeners_ ft) in
    (CountDown ft, evs ++ [EvCountDown])
  else
    let '(s, t) := Task_Run (task_ ft) in
    let ft := mkFutureTask (state_ ft) s t (listeners_ ft) (latch_ ft) in
    let '(_, ft) := set_state kTaskFinishedState ft in
    let evs :=
      if ok (status_ ft)
      then map EvOnSuccess (listeners_ ft)
      else map (fun callback => EvOnFailure callback (status_ ft)) (listeners_ ft) in
    (CountDown ft, [EvTaskRun] ++ evs ++ [EvCountDown]).

(** [task_->Abort()] is evaluated only when the state is not Finished
    (the [&&] short-circuits). *)
Definition FutureTask_Abort (ft : FutureTask) : bool * FutureTask * list FutureEvent :=
  if decide (state_ ft <> kTaskFinishedState) then
    let '(agreed, t) := Task_Abort (task_ ft) in
    let ft := mkFutureTask (state_ ft) (status_ ft) t (listeners_ ft) (latch_ ft) in
    if agreed
    then (true,
          mkFutureTask kTaskAbortedState (status_ ft) (task_ ft) (listeners_ ft) (latch_ ft),
          [EvTaskAbort])
    else (false, ft, [EvTaskAbort])
  else (false, ft, []).

Definition FutureTask_AddListener (callback : ListenerCallback) (ft : FutureTask)
  : FutureTask * list FutureEvent :=
  if decide (state_ ft <> kTaskFinishedState /\ state_ ft <> kTaskAbortedState)
  then (mkFutureTask (state_ ft) (status_ ft) (task_ ft)
                     (listeners_ ft ++ [callback]) (latch_ ft), [])
  else if ok (status_ ft)
       then (ft, [EvOnSuccess callback])
       else (ft, [EvOnFailure callback (status_ ft)]).

Definition is_aborted (ft : FutureTask) : bool :=
  bool_decide (state_ ft = kTaskAbortedState).

Definition is_done (ft : FutureTask) : bool :=
  bool_decide (state_ ft = kTaskFinishedState) || bool_decide (state_ ft = kTaskAbortedState).

Definition is_running (ft : FutureTask) : bool :=
  bool_decide (state_ ft = kTaskRunningState).

(** [Future::status()]. *)
Definition status (ft : FutureTask) : Status := status_ ft.

(** The listener a callback event is addressed to. *)
Definition listener_of (ev : FutureEvent) : option ListenerCallback :=
  match ev with
  | EvOnSuccess c | EvOnFailure c _ => Some c
  | _ => None
  end.

(** The call a listener receives for the outcome [s]. *)
Definition notify (s : Status) (cb : ListenerCallback) : FutureEvent :=
  if ok s then EvOnSuccess cb else EvOnFailure cb s.

End FutureTask.

(** A task whose [Run] returns [result] and whose [Abort] returns
    [abortable]. *)
Definition BoundTask (result : Status) (abortable : bool) : @Task unit :=
  mkTask tt (fun o => (result, o)) (fun o => (abortable, o)).

(** ** TaskExecutor *)

(** The address of a heap-allocated [FutureTask]; the
    [shared_ptr]s held by the caller's future handle and by queue
    entries are such addresses. *)
Definition FutureRef := nat.

Section TaskExecutor.

Context {T : Type}.

(** The value of a default-constructed [Status]. *)
Variable default_status : Status.

(** The executor's pool, the [FutureTask] objects with the calls each
    has made so far on its task, listeners and latch. *)
Record ExecWorld := mkExec {
  thread_pool_ : @World FutureRef;
  heap : gmap FutureRef (@FutureTask T * list FutureEvent)
}.

(** [future] is the out-parameter: [None] for a NULL pointer,
    otherwise the handle it points to.  The [DCHECK] that the handle is
    empty is a debug-only check. *)
Definition TaskExecutor_Submit (task : @Task T) (future : option (option FutureRef))
    (cur : option Trace) (spawn : Status) (x : ExecWorld)
  : Status * option (option FutureRef) * ExecWorld :=
  let future_task := fresh (dom (heap x)) in
  let h := <[future_task := (FutureTask_new default_status task, [])]> (heap x) in
  let future :=
    match future with
    | Some _ => Some (Some future_task)
    | None => None
    end in
  let '(s, p) := Submit future_task cur spawn (thread_pool_ x) in
  (s, future, mkExec p h).















End TaskExecutor.

(** ** Example executions

    A pool of at most two threads with a queue of two, built on a
    machine with four CPUs; runnables are numbered. *)

Definition example_builder : ThreadPoolBuilder :=
  mkBuilder "pool" 0 2 2 (FromMilliseconds 500).

Definition example_new : @World nat := ThreadPool_new example_builder.

Definition run_from (w : @World nat) (acts : list (@Action nat)) : @World nat :=
  match run acts w with Some w' => w' | None => w end.

(** After [Init]. *)
Definition example_running : @World nat :=
  run_from example_new [ActInit (fun _ => OK)].

(** Two submissions, each carrying a trace and each starting a thread. *)
Definition example_loaded : @World nat :=
  run_from example_running
    [ActSubmit 10%nat (Some 5%nat) OK; ActSubmit 11%nat (Some 6%nat) OK].

(** What the two workers do once [Shutdown] has been entered. *)
Definition example_drain : list (@Action nat) :=
  [ActWorker 0 true; ActWorker 1 true].

Definition example_stopped : @World nat :=
  run_from (shutdown_world (Shutdown example_loaded)) example_drain.

(** One submission, run to completion by worker 0, which then waits. *)
Definition example_idle : @World nat :=
  run_from example_running
    [ActSubmit 10%nat None OK; ActWorker 0 true; ActWorker 0 true; ActWorker 0 true].

(** Worker 0 after its timed wait ran out. *)
Definition example_reaped : @World nat :=
  run_from example_idle [ActWorker 0 false].




(** ** Further operations of the pool *)

Section ThreadPoolMore.

Context {Runnable : Type}.

(** The loop condition of [Wait] and [TimedWait]: something is queued
    or some worker is running an item. *)
Definition not_idle (w : @World Runnable) : bool :=
  negb (match queue_ (pool w) with [] => true | _ :: _ => false end)
  || (0 <? active_threads_ (pool w)).

(** [Wait] tests the condition each time it holds the lock: [true]
    when it returns, [false] when it blocks in [idle_cond_.wait]. *)
Definition Wait_returns (w : @World Runnable) : bool := negb (not_idle w).

(** [TimedWait], from one test of the loop condition: [Some true] when
    the loop ends, [None] when the caller blocks in
    [idle_cond_.timed_wait]. *)
Definition TimedWait_test (w : @World Runnable) : option bool :=
  if not_idle w then None else Some true.

(** Return from [idle_cond_.timed_wait] with the lock reacquired;
    [signalled] is its result. *)
Definition TimedWait_wake (signalled : bool) (w : @World Runnable) : option bool :=
  if negb signalled then Some false else TimedWait_test w.

(** [ThreadPoolBuilder::Build]: construct the pool and initialise it. *)
Definition Build (spawns : nat -> Status) (b : ThreadPoolBuilder)
  : option (Status * @World Runnable) :=
  match Init spawns (ThreadPool_new b) with
  | Some (s, w) => if ok s then Some (OK, w) else Some (s, w)
  | None => None
  end.

(** The items a step puts at the tail of the queue. *)
Definition pushed (a : @Action Runnable) (w : @World Runnable) : list Runnable :=
  match a with
  | ActSubmit task cur spawn =>
      if ok (fst (Submit task cur spawn w)) then [task] else []
  | _ => []
  end.

(** The items a step takes from the head of the queue: the one a worker
    fetches, or all that [Shutdown] drops. *)
Definition taken (a : @Action Runnable) (w : @World Runnable) : list Runnable :=
  match a with
  | ActWorker i notified =>
      match worker_step i notified w with
      | Some w' =>
          match pc <$> threads w' !! i with
          | Some (WFetched e) => [runnable e]
          | _ => []
          end
      | None => []
      end
  | ActShutdown => map runnable (queue_ (pool w))
  | _ => []
  end.

(** All items pushed, and all items taken, along an execution. *)
Fixpoint pushes (acts : list (@Action Runnable)) (w : @World Runnable) : list Runnable :=
  match acts with
  | [] => []
  | a :: acts' =>
      pushed a w ++ match step a w with Some w' => pushes acts' w' | None => [] end
  end.

Fixpoint takes (acts : list (@Action Runnable)) (w : @World Runnable) : list Runnable :=
  match acts with
  | [] => []
  | a :: acts' =>
      taken a w ++ match step a w with Some w' => takes acts' w' | None => [] end
  end.

(** Reference counting of a trace, read off the log and the state. *)
Definition is_addref (t : Trace) (ev : @Event Runnable) : bool :=
  match ev with EvAddRef t' => bool_decide (t' = t) | _ => false end.

Definition is_release (t : Trace) (ev : @Event Runnable) : bool :=
  match ev with EvRelease t' => bool_decide (t' = t) | _ => false end.

Definition entry_holds (t : Trace) (e : @QueueEntry Runnable) : bool :=
  bool_decide (trace e = Some t).

(** A worker that has fetched an entry and not yet released its trace. *)
Definition fetched_holds (t : Trace) (wk : @Worker Runnable) : bool :=
  match pc wk with
  | WFetched e => entry_holds t e
  | _ => false
  end.

End ThreadPoolMore.

(** Bounds on the number of threads, kept by every step. *)
Record Bounds {Runnable : Type} (w : @World Runnable) : Prop := {
  bounds_threads :
    num_threads_ (pool w) <= Z.max (min_threads_ (pool w)) (max_threads_ (pool w));
  bounds_work :
    1 <= max_threads_ (pool w) -> queue_ (pool w) <> [] -> 1 <= num_threads_ (pool w)
}.

(** Nothing is queued and no worker holds an item. *)
Definition quiescent {Runnable : Type} (w : @World Runnable) : Prop :=
  queue_ (pool w) = [] /\ Forall (fun wk => busy wk = false) (threads w).

Section Backlog.

Context {Runnable : Type}.





End Backlog.

(** ** Sequences of calls on one FutureTask *)

Section FutureOps.

Context {T : Type}.

Inductive FutureOp :=
| OpAddListener (cb : ListenerCallback)
| OpAbort
| OpRun.

Definition apply_op (op : FutureOp) (ft : @FutureTask T)
  : @FutureTask T * list FutureEvent :=
  match op with
  | OpAddListener cb => FutureTask_AddListener cb ft
  | OpAbort => let '(_, ft', evs) := FutureTask_Abort ft in (ft', evs)
  | OpRun => FutureTask_Run ft
  end.

Fixpoint apply_ops (ops : list FutureOp) (ft : @FutureTask T)
  : @FutureTask T * list FutureEvent :=
  match ops with
  | [] => (ft, [])
  | op :: ops' =>
      let '(ft1, evs1) := apply_op op ft in
      let '(ft2, evs2) := apply_ops ops' ft1 in
      (ft2, evs1 ++ evs2)
  end.

(** The listeners registered by a sequence of calls, in order. *)
Definition registered (ops : list FutureOp) : list ListenerCallback :=
  omap (fun op => match op with OpAddListener cb => Some cb | _ => None end) ops.

(** The listeners called in a sequence of events, in order. *)
Definition called (evs : list FutureEvent) : list ListenerCallback :=
  omap listener_of evs.

Definition is_run (op : FutureOp) : bool :=
  match op with OpRun => true | _ => false end.

End FutureOps.

(** ** Counting runs in the executor *)

Section ExecCounting.

Context {T : Type}.






End ExecCounting.

(** ** Waiting on a [FutureTask], and creating an executor *)

Section FutureWait.

Context {T : Type}.

(** [FutureTask::Wait] is [latch_.Wait()]: tested with the latch's lock
    held, it returns when the count is zero and blocks otherwise. *)
Definition FutureTask_Wait_returns (ft : @FutureTask T) : bool :=
  Nat.eqb (latch_ ft) 0.

(** [TaskExecutor::CreateNew(name, min_threads, max_threads)].  The
    [size_t] arguments are narrowed to the [int] the builder's setters
    take.  [None]: the call does not return (a [CHECK] of a setter
    failed, or [Build] did not return); [Some None]: it logged the
    error and returned [NULL]; [Some (Some x)]: the new executor. *)
Definition TaskExecutor_CreateNew (ncpus : Z) (spawns : nat -> Status)
    (name : string) (min_threads max_threads : Z)
  : option (option (@ExecWorld T)) :=
  match set_min_threads (int_wrap min_threads) (ThreadPoolBuilder_new ncpus name) with
  | None => None
  | Some b1 =>
      match set_max_threads (int_wrap max_threads) b1 with
      | None => None
      | Some b2 =>
          match Build spawns b2 with
          | None => None
          | Some (s, w) =>
              if negb (ok s) then Some None else Some (Some (mkExec w ∅))
          end
      end
  end.

(** [TaskExecutor::CreateNew(name, max_threads)]. *)
Definition TaskExecutor_CreateNew_max (ncpus : Z) (spawns : nat -> Status)
    (name : string) (max_threads : Z) : option (option (@ExecWorld T)) :=
  TaskExecutor_CreateNew ncpus spawns name 0 max_threads.

End FutureWait.

(** ** Further example executions *)

(** A pool with one permanent worker, after [Init]. *)
Definition example_builder_min : ThreadPoolBuilder :=
  mkBuilder "pool" 1 2 2 (FromMilliseconds 500).

Definition example_permanent : @World nat :=
  run_from (ThreadPool_new example_builder_min) [ActInit (fun _ => OK)].

(** One submission and the three steps in which worker 0 fetches,
    adopts and runs it. *)
Definition example_work : list (@Action nat) :=
  [ActSubmit 10%nat None OK; ActWorker 0 true; ActWorker 0 true; ActWorker 0 true].

(** Calls on one [FutureTask]: a listener, an abort the task refuses,
    and after [Run] one more listener. *)
Definition example_ops_before : list FutureOp := [OpAddListener 7%nat; OpAbort].
Definition example_ops_after : list FutureOp := [OpAddListener 8%nat].

(** An executor on the running example pool: one task is submitted, a
    listener is added, and worker 0 fetches, adopts and runs it. *)
Definition example_exec_running : @ExecWorld unit := mkExec example_running ∅.



(** * Properties *)

(** ** Arithmetic *)

Lemma int_wrap_id z : int_range z -> int_wrap z = z.
Proof.
  unfold int_range, INT_MIN, INT_MAX, int_wrap. intros H.
  rewrite Z.mod_small by lia. lia.
Qed.

Lemma int_add_id a b : int_range (a + b) -> int_add a b = a + b.
Proof. apply int_wrap_id. Qed.

Lemma int_sub_id a b : int_range (a - b) -> int_sub a b = a - b.
Proof. apply int_wrap_id. Qed.

(** ** Builder *)

Lemma CHECK_Some {A} (c : bool) (k r : A) : CHECK c k = Some r -> c = true /\ r = k.
Proof. unfold CHECK. destruct c; intros H; inversion H; auto. Qed.

Lemma Built_ok ncpus b : Built ncpus b -> builder_ok ncpus b.
Proof.
  induction 1 as [name|n b b' _ IH Hn Hs|n b b' _ IH Hn Hs|n b b' _ IH Hn Hs|d b b' _ IH Hs].
  - split; cbn; unfold INT_MAX; lia.
  - apply CHECK_Some in Hs as [Hc ->]. destruct IH.
    split; cbn; unfold int_range, INT_MIN, INT_MAX in *; lia.
  - apply CHECK_Some in Hs as [Hc ->]. destruct IH.
    split; cbn; unfold int_range, INT_MIN, INT_MAX in *; lia.
  - apply CHECK_Some in Hs as [Hc ->]. destruct IH.
    split; cbn; unfold int_range, INT_MIN, INT_MAX in *; lia.
  - inversion Hs; subst. destruct IH. split; cbn; assumption.
Qed.

(** C8 as stated fails for [idle_timeout]: [set_timeout] has no check,
    so a negative timeout is stored like any other. *)
Lemma C8_negative_timeout_is_accepted :
  nano_delta (FromMilliseconds (-1)) < 0
  /\ set_timeout (FromMilliseconds (-1)) (ThreadPoolBuilder_new 4 "pool")
     = Some (mkBuilder "pool" 0 4 INT_MAX (FromMilliseconds (-1))).
Proof. split; [reflexivity|reflexivity]. Qed.

(** C8, amended: the three integer options are checked when they are
    set ([min_threads >= 0], [max_threads >= 1], [max_queue_size >= 1];
    a value that fails the check aborts, a value that passes is
    stored), [set_timeout] stores any duration unchecked, and a new
    builder has [min_threads = 0], [max_threads] = the number of CPUs,
    [max_queue_size = INT_MAX] and a timeout of 500 ms. *)
Theorem C8_builder_options (ncpus n : Z) (name : string) (d : MonoDelta)
    (b : ThreadPoolBuilder) :
  (set_min_threads n b
   = if decide (0 <= n)
     then Some (mkBuilder (b_name_ b) n (b_max_threads_ b)
                          (b_max_queue_size_ b) (b_timeout_ b))
     else None)
  /\ (set_max_threads n b
      = if decide (1 <= n)
        then Some (mkBuilder (b_name_ b) (b_min_threads_ b) n
                             (b_max_queue_size_ b) (b_timeout_ b))
        else None)
  /\ (set_max_queue_size n b
      = if decide (1 <= n)
        then Some (mkBuilder (b_name_ b) (b_min_threads_ b) (b_max_threads_ b)
                             n (b_timeout_ b))
        else None)
  /\ set_timeout d b
     = Some (mkBuilder (b_name_ b) (b_min_threads_ b) (b_max_threads_ b)
                       (b_max_queue_size_ b) d)
  /\ b_min_threads_ (ThreadPoolBuilder_new ncpus name) = 0
  /\ b_max_threads_ (ThreadPoolBuilder_new ncpus name) = ncpus
  /\ b_max_queue_size_ (ThreadPoolBuilder_new ncpus name) = INT_MAX
  /\ ToMilliseconds (b_timeout_ (ThreadPoolBuilder_new ncpus name)) = 500.
Proof.
  unfold set_min_threads, set_max_threads, set_max_queue_size, set_timeout, CHECK.
  repeat split.
  - destruct (decide (0 <= n)) as [H|H].
    + apply Z.leb_le in H. rewrite H. reflexivity.
    + apply Z.leb_nle in H. rewrite H. reflexivity.
  - destruct (decide (1 <= n)) as [H|H].
    + assert (E : (0 <? n) = true) by (apply Z.ltb_lt; lia). rewrite E. reflexivity.
    + assert (E : (0 <? n) = false) by (apply Z.ltb_ge; lia). rewrite E. reflexivity.
  - destruct (decide (1 <= n)) as [H|H].
    + assert (E : (0 <? n) = true) by (apply Z.ltb_lt; lia). rewrite E. reflexivity.
    + assert (E : (0 <? n) = false) by (apply Z.ltb_ge; lia). rewrite E. reflexivity.
Qed.

(** ** Counting threads *)

Section Counting.

Context {A : Type}.

Lemma count_if_nonneg (f : A -> bool) (l : list A) : 0 <= count_if f l.
Proof. induction l as [|x l IH]; cbn; [lia|]. destruct (f x); lia. Qed.

Lemma count_if_app (f : A -> bool) (l1 l2 : list A) : count_if f (l1 ++ l2) = count_if f l1 + count_if f l2.
Proof. induction l1 as [|x l1 IH]; cbn; [reflexivity|]. rewrite IH. lia. Qed.

Lemma count_if_insert (f : A -> bool) (l : list A) i x y :
  l !! i = Some x ->
  count_if f (<[i := y]> l)
  = count_if f l - (if f x then 1 else 0) + (if f y then 1 else 0).
Proof.
  revert i. induction l as [|a l IH]; intros [|i] H; simpl in *; try discriminate.
  - inversion H; subst. lia.
  - rewrite (IH i H). lia.
Qed.

Lemma count_if_le (f g : A -> bool) (l : list A) :
  (forall x, f x = true -> g x = true) -> count_if f l <= count_if g l.
Proof.
  intros Hfg. induction l as [|a l IH]; cbn; [lia|].
  specialize (Hfg a).
  destruct (f a), (g a); first [lia | discriminate (Hfg eq_refl)].
Qed.

Lemma count_if_le_length (f : A -> bool) (l : list A) : count_if f l <= Z.of_nat (length l).
Proof. induction l as [|a l IH]; cbn [count_if length]; [lia|]. destruct (f a); lia. Qed.

End Counting.

(** ** The pool invariant *)

Section PoolInvariant.

Context {Runnable : Type}.
Local Abbreviation World := (@World Runnable).
Local Abbreviation Worker := (@Worker Runnable).

Lemma busy_live (wk : Worker) : busy wk = true -> live wk = true.
Proof. unfold busy, live. destruct (pc wk); auto. Qed.

Lemma live_permanent_live (wk : Worker) : live_permanent wk = true -> live wk = true.
Proof. unfold live_permanent. destruct (live wk); auto. Qed.

Lemma count_if_pos (f : Worker -> bool) (l : list Worker) i x :
  l !! i = Some x -> f x = true -> 1 <= count_if f l.
Proof.
  intros Hl Hf.
  revert i Hl. induction l as [|a l IH]; intros [|i] Hl; simpl in *; try discriminate.
  - inversion Hl; subst. rewrite Hf. pose proof (count_if_nonneg f l). lia.
  - pose proof (IH i Hl). destruct (f a); lia.
Qed.

Lemma Inv_new ncpus b : int_range ncpus -> Built ncpus b -> Inv (@ThreadPool_new Runnable b).
Proof.
  intros Hn Hb. apply Built_ok in Hb as [Hmin Hmax Hq].
  split; cbn; try reflexivity; try assumption; try lia; try discriminate.
  unfold int_range, INT_MIN, INT_MAX in *. lia.
Qed.


Lemma Inv_emit evs (w : World) : Inv w -> Inv (emit evs w).
Proof. intros []; split; assumption. Qed.

Lemma Inv_Submit_enqueue task cur (w : World) :
  Inv w ->
  ok (pool_status_ (pool w)) = true ->
  queue_size_ (pool w) <> max_queue_size_ (pool w) ->
  Inv (snd (Submit_enqueue task cur w)).
Proof.
  intros [] Hok Hne. unfold Submit_enqueue. cbn.
  assert (E : int_add (queue_size_ (pool w)) 1 = queue_size_ (pool w) + 1).
  { apply int_add_id. unfold int_range, INT_MIN, INT_MAX in *. lia. }
  split; cbn; rewrite ?E; try assumption.
  - rewrite length_app. cbn. lia.
  - lia.
  - intros H. congruence.
Qed.

(** While the pool is running, a thread created by [Submit] is not
    permanent. *)
Lemma CreateThread_running_not_permanent (w : World) :
  Inv w -> ok (pool_status_ (pool w)) = true ->
  (num_threads_ (pool w) <? min_threads_ (pool w)) = false.
Proof.
  intros I Hok. apply Z.ltb_ge.
  rewrite (inv_num _ I), <- (inv_permanent _ I Hok).
  apply count_if_le, live_permanent_live.
Qed.

Lemma Inv_CreateThread_running spawn (w : World) :
  Inv w ->
  ok (pool_status_ (pool w)) = true ->
  num_threads_ (pool w) < max_threads_ (pool w) ->
  Inv (snd (CreateThreadUnlocked spawn w)).
Proof.
  intros I Hok Hlt.
  pose proof (CreateThread_running_not_permanent w I Hok) as Hperm.
  unfold CreateThreadUnlocked. cbv zeta. rewrite Hperm.
  destruct (ok spawn); [|apply Inv_emit, I].
  destruct I as [Imin Imax Imaxq Iqs Iqb Inum Inb Iact Iperm Istop Iun]. cbn.
  assert (E : int_add (num_threads_ (pool w)) 1 = num_threads_ (pool w) + 1).
  { apply int_add_id. pose proof (count_if_nonneg live (threads w)).
    unfold int_range, INT_MIN, INT_MAX in *. lia. }
  split; cbn; rewrite ?E, ?count_if_app; cbn; try assumption; try lia.
  - unfold int_range, INT_MIN, INT_MAX in *. lia.
  - intros H. specialize (Iperm H). lia.
  - intros H. rewrite Hok in *. destruct (pool_status_ (pool w)) as [|[]]; discriminate.
Qed.

Lemma CreateThread_status spawn (w : World) :
  pool_status_ (pool (snd (CreateThreadUnlocked spawn w))) = pool_status_ (pool w)
  /\ queue_size_ (pool (snd (CreateThreadUnlocked spawn w))) = queue_size_ (pool w)
  /\ max_queue_size_ (pool (snd (CreateThreadUnlocked spawn w))) = max_queue_size_ (pool w)
  /\ queue_ (pool (snd (CreateThreadUnlocked spawn w))) = queue_ (pool w)
  /\ fst (CreateThreadUnlocked spawn w) = spawn.
Proof. unfold CreateThreadUnlocked. cbv zeta. destruct (ok spawn); cbn; auto. Qed.

Lemma Inv_Submit task cur spawn (w : World) : Inv w -> Inv (snd (Submit task cur spawn w)).
Proof.
  intros I. unfold Submit.
  destruct (negb (ok (pool_status_ (pool w)))) eqn:Hs; [exact I|].
  apply negb_false_iff in Hs.
  destruct (queue_size_ (pool w) =? max_queue_size_ (pool w)) eqn:Hfull; [exact I|].
  apply Z.eqb_neq in Hfull. cbv zeta.
  destruct (_ && _) eqn:Hc; [|apply Inv_Submit_enqueue; assumption].
  apply andb_true_iff in Hc as [_ Hlt]. apply Z.ltb_lt in Hlt.
  pose proof (Inv_CreateThread_running spawn w I Hs Hlt) as I'.
  destruct (CreateThread_status spawn w) as (Es & Eq & Em & _ & Ef).
  destruct (CreateThreadUnlocked spawn w) as [status w'] eqn:Hct. cbn in *.
  destruct (negb (ok status)).
  - destruct (num_threads_ (pool w') =? 0); [exact I'|].
    apply Inv_Submit_enqueue; [apply Inv_emit, I'|cbn; congruence|cbn; congruence].
  - apply Inv_Submit_enqueue; [exact I'|congruence|congruence].
Qed.


Lemma Inv_Shutdown (w : World) : Inv w -> Inv (shutdown_world (Shutdown w)).
Proof.
  intros []. unfold Shutdown, Shutdown_loop. cbv zeta.
  destruct (0 <? _); cbn; split; cbn; try assumption; try reflexivity; try lia;
    discriminate.
Qed.

Lemma Init_loop_Inv spawns n : forall i (w : World) st w',
  InitInv i w ->
  Z.of_nat (i + n) = min_threads_ (pool w) ->
  Init_loop spawns n i w = Some (st, w') ->
  Inv w' /\ st = OK /\ pool_status_ (pool w') = OK.
Proof.
  induction n as [|n IH]; intros i w st w' I Hn Hrun; cbn in Hrun.
  - inversion Hrun; subst. destruct I as [Jmin Jmax Jmaxq Jst Jq Jqs Jnum Jlive Jperm Jact Jbusy].
    rewrite Nat.add_0_r in Hn.
    split; [|auto].
    split; try assumption; try lia; rewrite ?Jst; try discriminate; try lia.
    rewrite Jq. cbn. lia.
  - unfold CreateThreadUnlocked in Hrun. cbv zeta in Hrun.
    destruct (ok (spawns i)) eqn:Hspawn; cbn in Hrun; rewrite Hspawn in Hrun;
      [|discriminate].
    eapply IH in Hrun; [exact Hrun| |cbn; lia].
    destruct I as [Jmin Jmax Jmaxq Jst Jq Jqs Jnum Jlive Jperm Jact Jbusy].
    assert (Hp : (num_threads_ (pool w) <? min_threads_ (pool w)) = true)
      by (apply Z.ltb_lt; lia).
    assert (E : int_add (num_threads_ (pool w)) 1 = Z.of_nat (S i)).
    { rewrite int_add_id; unfold int_range, INT_MIN, INT_MAX in *; lia. }
    split; cbn; rewrite ?E, ?Hp, ?count_if_app; cbn; try assumption; try lia.
Qed.

Lemma Inv_Init spawns (w : World) st w' :
  Inv w -> Init spawns w = Some (st, w') -> Inv w'.
Proof.
  intros I. unfold Init.
  destruct (negb (IsUninitialized (pool_status_ (pool w)))) eqn:Hu.
  - intros H; inversion H; subst. exact I.
  - apply negb_false_iff in Hu. cbv zeta. intros Hrun.
    eapply Init_loop_Inv in Hrun; [apply Hrun| |cbn; destruct I; lia].
    destruct I as [Imin Imax Imaxq Iqs Iqb Inum Inb Iact Iperm Istop Iun].
    specialize (Iun Hu).
    assert (Hq : queue_ (pool w) = []).
    { apply Istop. destruct (pool_status_ (pool w)); [discriminate|reflexivity]. }
    rewrite Iun in *. rewrite Hq in *. cbn in *.
    split; cbn; rewrite ?Iun; try assumption; try reflexivity.
Qed.


Lemma count_if_gap (f g : Worker -> bool) (l : list Worker) i x :
  l !! i = Some x -> f x = false -> g x = true ->
  (forall y, f y = true -> g y = true) ->
  count_if f l + 1 <= count_if g l.
Proof.
  intros Hl Hf Hg Hfg.
  revert i Hl. induction l as [|a l IH]; intros [|i] Hl; simpl in *; try discriminate.
  - inversion Hl; subst. rewrite Hf, Hg. pose proof (count_if_le f g l Hfg). lia.
  - pose proof (IH i Hl). specialize (Hfg a).
    destruct (f a), (g a); first [lia | discriminate (Hfg eq_refl)].
Qed.

Ltac unwrap :=
  unfold int_add, int_sub in *;
  repeat match goal with
    | |- context [int_wrap ?z] =>
        rewrite (int_wrap_id z) by (unfold int_range, INT_MIN, INT_MAX in *; lia)
    end.

Ltac worker_case Hl :=
  cbn [length] in *; split; cbn;
  rewrite ?(count_if_insert live _ _ _ _ Hl),
          ?(count_if_insert busy _ _ _ _ Hl),
          ?(count_if_insert live_permanent _ _ _ _ Hl);
  cbn; unwrap;
  try assumption; try discriminate; try reflexivity; try lia;
  try (intros; congruence).

Lemma Inv_worker_step i notified (w w' : World) :
  Inv w -> worker_step i notified w = Some w' -> Inv w'.
Proof.
  intros I. unfold worker_step.
  destruct (threads w !! i) as [[perm p]|] eqn:Hl; [|discriminate].
  cbn [pc permanent].
  pose proof (count_if_le busy live (threads w) busy_live) as Hbl.
  pose proof (count_if_le live_permanent live (threads w) live_permanent_live) as Hpl.
  pose proof (count_if_nonneg busy (threads w)) as Hb0.
  pose proof (count_if_nonneg live_permanent (threads w)) as Hp0.
  destruct w as [[nm mn mx mq tmo st nt act qs q] thr lg].
  destruct I as [Imin Imax Imaxq Iqs Iqb Inum Inb Iact Iperm Istop Iun].
  cbn in *. subst nt act qs.
  assert (Hst : IsUninitialized st = false).
  { destruct (IsUninitialized st); [|reflexivity]. rewrite Iun in Hl by reflexivity.
    discriminate. }
  clear Iun.
  destruct p as [| |e|e|].
  - (* WStart: first pass through the loop *)
    pose proof (count_if_gap busy live thr i _ Hl eq_refl eq_refl busy_live) as Hgap.
    unfold DispatchThread_top, DispatchThread_exit. cbn.
    destruct (ok st) eqn:Hok; cbn.
    + destruct q as [|entry rest]; intros H; inversion H; subst; clear H;
        worker_case Hl.
    + rewrite (Istop eq_refl) in *.
      destruct (_ =? 0); intros H; inversion H; subst; clear H; worker_case Hl.
  - (* WWaiting: return from the wait *)
    pose proof (count_if_gap busy live thr i _ Hl eq_refl eq_refl busy_live) as Hgap.
    unfold DispatchThread_wake, DispatchThread_top, DispatchThread_exit. cbn.
    destruct perm, notified; cbn;
      (destruct (ok st) eqn:Hok; cbn;
       [ destruct q as [|entry rest]; cbn
       | rewrite (Istop eq_refl) in *; cbn ]);
      try match goal with |- context [?n =? 0] => destruct (n =? 0) end;
      intros H; inversion H; subst; clear H; worker_case Hl.
  - (* WFetched: adopt the trace *)
    unfold DispatchThread_adopt. intros H; inversion H; subst; clear H.
    worker_case Hl.
    intros Hok. specialize (Iperm Hok). destruct perm; lia.
  - (* WRunning: the task returned *)
    pose proof (count_if_pos busy thr i _ Hl eq_refl) as Hpos.
    unfold DispatchThread_done, DispatchThread_top, DispatchThread_exit. cbn.
    destruct (ok st) eqn:Hok; cbn.
    + destruct q as [|entry rest]; intros H; inversion H; subst; clear H;
        worker_case Hl.
    + rewrite (Istop eq_refl) in *.
      destruct (_ =? 0); intros H; inversion H; subst; clear H; worker_case Hl.
  - (* WExited *)
    discriminate.
Qed.

Lemma Inv_step a (w w' : World) : Inv w -> step a w = Some w' -> Inv w'.
Proof.
  intros I. destruct a as [spawns|task cur spawn| |i notified]; cbn.
  - destruct (Init spawns w) as [[st w1]|] eqn:Hi; cbn; intros H; inversion H; subst.
    eapply Inv_Init; eassumption.
  - intros H; inversion H; subst. apply Inv_Submit, I.
  - intros H; inversion H; subst. apply Inv_Shutdown, I.
  - apply Inv_worker_step, I.
Qed.

Lemma reachable_Inv ncpus (w : World) : reachable ncpus w -> Inv w.
Proof.
  induction 1 as [b Hn Hb|a w w' _ IH Hs].
  - eapply Inv_new; eassumption.
  - eapply Inv_step; eassumption.
Qed.

End PoolInvariant.

(** ** Submit *)

Section SubmitProperties.

Context {Runnable : Type}.
Local Abbreviation World := (@World Runnable).

Lemma Submit_enqueue_ok task cur (w : World) : fst (Submit_enqueue task cur w) = OK.
Proof. reflexivity. Qed.

Lemma Submit_unfold task cur spawn (w : World) :
  Submit task cur spawn w =
  if negb (ok (pool_status_ (pool w))) then (pool_status_ (pool w), w)
  else if queue_size_ (pool w) =? max_queue_size_ (pool w)
  then (ServiceUnavailable (queue_full_msg (queue_size_ (pool w))), w)
  else if Submit_spawns (pool w)
  then if ok spawn
       then Submit_enqueue task cur (snd (CreateThreadUnlocked spawn w))
       else if num_threads_ (pool w) =? 0
            then (spawn, snd (CreateThreadUnlocked spawn w))
            else Submit_enqueue task cur
                   (emit [EvWarning spawn] (snd (CreateThreadUnlocked spawn w)))
  else Submit_enqueue task cur w.
Proof.
  unfold Submit, Submit_spawns. cbv zeta.
  destruct (negb (ok (pool_status_ (pool w)))); [reflexivity|].
  destruct (queue_size_ (pool w) =? max_queue_size_ (pool w)); [reflexivity|].
  destruct (_ && _); [|reflexivity].
  unfold CreateThreadUnlocked. cbv zeta.
  destruct (ok spawn) eqn:Hs; cbn; rewrite Hs; reflexivity.
Qed.

(** A failing [Submit] changes neither the pool object nor the set of
    threads. *)
Lemma Submit_rejected_unchanged task cur spawn (w : World) :
  ok (fst (Submit task cur spawn w)) = false ->
  pool (snd (Submit task cur spawn w)) = pool w
  /\ threads (snd (Submit task cur spawn w)) = threads w.
Proof.
  rewrite Submit_unfold.
  destruct (negb (ok (pool_status_ (pool w)))); [auto|].
  destruct (queue_size_ (pool w) =? max_queue_size_ (pool w)); [auto|].
  destruct (Submit_spawns (pool w)); [|discriminate].
  destruct (ok spawn) eqn:Hsp; [discriminate|].
  destruct (num_threads_ (pool w) =? 0); [|discriminate].
  unfold CreateThreadUnlocked. cbv zeta. rewrite Hsp. auto.
Qed.

(** C1: [Submit] fails exactly when the pool status is not OK (and the
    error is then that status: Uninitialized on a fresh pool,
    ServiceUnavailable after [Shutdown]), or the queue is full, or a
    thread creation was attempted and failed with [num_threads_ == 0];
    a failing [Submit] leaves the pool object (in particular [queue_]
    and [queue_size_]) and the set of threads as they were. *)
Theorem C1_submit_error_iff task cur spawn (w : World) :
  (ok (fst (Submit task cur spawn w)) = false <->
     ok (pool_status_ (pool w)) = false
     \/ queue_size_ (pool w) = max_queue_size_ (pool w)
     \/ (Submit_spawns (pool w) = true /\ ok spawn = false
         /\ num_threads_ (pool w) = 0))
  /\ (ok (pool_status_ (pool w)) = false ->
      fst (Submit task cur spawn w) = pool_status_ (pool w))
  /\ (forall b, IsUninitialized (fst (Submit task cur spawn (ThreadPool_new b))) = true)
  /\ IsServiceUnavailable
       (fst (Submit task cur spawn (shutdown_world (Shutdown w)))) = true
  /\ (ok (fst (Submit task cur spawn w)) = false ->
      pool (snd (Submit task cur spawn w)) = pool w
      /\ threads (snd (Submit task cur spawn w)) = threads w).
Proof.
  split; [split|split; [|split; [|split]]].
  - rewrite Submit_unfold.
    destruct (ok (pool_status_ (pool w))) eqn:Hs; cbn; [|auto].
    destruct (queue_size_ (pool w) =? max_queue_size_ (pool w)) eqn:Hq;
      [apply Z.eqb_eq in Hq; auto|].
    destruct (Submit_spawns (pool w)); [|discriminate].
    destruct (ok spawn) eqn:Hsp; [discriminate|].
    destruct (num_threads_ (pool w) =? 0) eqn:Hn; [|discriminate].
    apply Z.eqb_eq in Hn. auto.
  - rewrite Submit_unfold.
    destruct (ok (pool_status_ (pool w))) eqn:Hs; cbn; [|auto].
    intros [H|[H|(Hsp & Hf & Hn)]]; [discriminate H| |].
    + apply Z.eqb_eq in H. rewrite H. reflexivity.
    + destruct (queue_size_ (pool w) =? max_queue_size_ (pool w)); [reflexivity|].
      rewrite Hsp, Hf. apply Z.eqb_eq in Hn. rewrite Hn. exact Hf.
  - intros Hs. rewrite Submit_unfold, Hs. reflexivity.
  - intros b. reflexivity.
  - unfold Shutdown, Shutdown_loop. cbv zeta. destruct (0 <? _); reflexivity.
  - intros Herr. apply Submit_rejected_unchanged, Herr.
Qed.


(** On a reachable pool that accepts submissions the [int] arithmetic
    of the spawn test does not wrap. *)
Lemma Submit_spawns_wanted (w : World) :
  Inv w ->
  queue_size_ (pool w) <> max_queue_size_ (pool w) ->
  Submit_spawns (pool w) = true <-> spawn_wanted (pool w).
Proof.
  intros [] Hq. unfold Submit_spawns, spawn_wanted.
  pose proof (count_if_le busy live (threads w) busy_live).
  pose proof (count_if_nonneg busy (threads w)).
  pose proof (count_if_nonneg live (threads w)).
  rewrite andb_true_iff, Z.ltb_lt, Z.ltb_lt.
  unfold int_add, int_sub.
  rewrite (int_wrap_id (num_threads_ (pool w) - active_threads_ (pool w)))
    by (unfold int_range, INT_MIN, INT_MAX in *; lia).
  rewrite (int_wrap_id (queue_size_ (pool w) + 1))
    by (unfold int_range, INT_MIN, INT_MAX in *; lia).
  rewrite int_wrap_id by (unfold int_range, INT_MIN, INT_MAX in *; lia).
  reflexivity.
Qed.

Lemma new_events_app (w : World) evs (w' : World) :
  log w' = log w ++ evs -> new_events w w' = evs.
Proof. intros E. unfold new_events. rewrite E. apply drop_app_length. Qed.

Lemma Submit_enqueue_log task cur (w : World) :
  log (snd (Submit_enqueue task cur w))
  = log w ++ match cur with Some t => [EvAddRef t] | None => [] end.
Proof. reflexivity. Qed.

(** C5: a submission that passed the status and queue-size checks
    calls [Thread::Create] exactly once when
    [(queue_size_ + 1) - (num_threads_ - active_threads_) > 0] and
    [num_threads_ < max_threads_], and not at all otherwise; the thread
    it creates is not permanent; a failed creation is returned only
    when [num_threads_ == 0], and otherwise the item is enqueued and
    [Submit] returns OK. *)
Theorem C5_submit_spawn ncpus task cur spawn (w : World) :
  reachable ncpus w ->
  ok (pool_status_ (pool w)) = true ->
  queue_size_ (pool w) <> max_queue_size_ (pool w) ->
  (spawn_wanted (pool w) ->
     creations (new_events w (snd (Submit task cur spawn w))) = [(false, spawn)]
     /\ (ok spawn = true ->
         fst (Submit task cur spawn w) = OK
         /\ threads (snd (Submit task cur spawn w))
            = threads w ++ [mkWorker false WStart]
         /\ num_threads_ (pool (snd (Submit task cur spawn w)))
            = num_threads_ (pool w) + 1
         /\ queue_ (pool (snd (Submit task cur spawn w)))
            = queue_ (pool w) ++ [mkEntry task cur])
     /\ (ok spawn = false -> num_threads_ (pool w) = 0 ->
         fst (Submit task cur spawn w) = spawn
         /\ pool (snd (Submit task cur spawn w)) = pool w
         /\ threads (snd (Submit task cur spawn w)) = threads w)
     /\ (ok spawn = false -> num_threads_ (pool w) <> 0 ->
         fst (Submit task cur spawn w) = OK
         /\ threads (snd (Submit task cur spawn w)) = threads w
         /\ num_threads_ (pool (snd (Submit task cur spawn w)))
            = num_threads_ (pool w)
         /\ queue_ (pool (snd (Submit task cur spawn w)))
            = queue_ (pool w) ++ [mkEntry task cur]))
  /\ (~ spawn_wanted (pool w) ->
      creations (new_events w (snd (Submit task cur spawn w))) = []
      /\ fst (Submit task cur spawn w) = OK
      /\ threads (snd (Submit task cur spawn w)) = threads w
      /\ queue_ (pool (snd (Submit task cur spawn w)))
         = queue_ (pool w) ++ [mkEntry task cur]).
Proof.
  intros Hr Hok Hq. apply reachable_Inv in Hr.
  pose proof (Submit_spawns_wanted w Hr Hq) as Hsw.
  pose proof (CreateThread_running_not_permanent w Hr Hok) as Hperm.
  assert (Hnum : int_add (num_threads_ (pool w)) 1 = num_threads_ (pool w) + 1
                 \/ ~ spawn_wanted (pool w)).
  { destruct (Z.lt_ge_cases (num_threads_ (pool w)) (max_threads_ (pool w))) as [Hlt|Hge].
    - left. apply int_add_id. destruct Hr.
      pose proof (count_if_nonneg live (threads w)).
      unfold int_range, INT_MIN, INT_MAX in *. lia.
    - right. intros [_ Hlt]. lia. }
  rewrite Submit_unfold, Hok. cbn [negb].
  apply Z.eqb_neq in Hq. rewrite Hq.
  split.
  - intros Hw. destruct Hnum as [Hnum|Hn]; [|contradiction].
    rewrite (proj2 Hsw Hw).
    unfold CreateThreadUnlocked. cbv zeta. rewrite Hperm.
    split; [|split; [|split]].
    + destruct (ok spawn); [|destruct (num_threads_ (pool w) =? 0)];
        (erewrite new_events_app;
         [|cbn; rewrite <- ?app_assoc; reflexivity]);
        destruct cur; reflexivity.
    + intros Hs. rewrite Hs. cbn. rewrite Hnum. auto.
    + intros Hs Hz. rewrite Hs. apply Z.eqb_eq in Hz. rewrite Hz. cbn. auto.
    + intros Hs Hz. rewrite Hs. apply Z.eqb_neq in Hz. rewrite Hz. cbn. auto.
  - intros Hw.
    destruct (Submit_spawns (pool w)) eqn:Hsp; [exfalso; apply Hw, Hsw; reflexivity|].
    split; [|auto].
    erewrite new_events_app by apply Submit_enqueue_log.
    destruct cur; reflexivity.
Qed.

End SubmitProperties.

(** ** Queue bookkeeping, shutdown and worker exit *)

Section PoolLifecycle.

Context {Runnable : Type}.
Local Abbreviation World := (@World Runnable).
Local Abbreviation Worker := (@Worker Runnable).
Local Abbreviation QueueEntry := (@QueueEntry Runnable).

(** C9: in every reachable state of the pool [queue_size_] equals the
    length of [queue_]: it holds for a new pool and every operation
    ([Submit]'s push, a worker's pop, [ClearQueue] in [Shutdown])
    keeps it. *)
Theorem C9_queue_size_mirrors_queue ncpus (w : World) :
  reachable ncpus w ->
  queue_size_ (pool w) = Z.of_nat (length (queue_ (pool w))).
Proof. intros Hr. apply reachable_Inv in Hr. apply Hr. Qed.

Lemma Shutdown_status (w : World) :
  pool_status_ (pool (shutdown_world (Shutdown w))) = shut_down_status.
Proof. unfold Shutdown, Shutdown_loop. cbv zeta. destruct (0 <? _); reflexivity. Qed.

Lemma worker_step_status i notified (w w' : World) :
  worker_step i notified w = Some w' ->
  pool_status_ (pool w') = pool_status_ (pool w).
Proof.
  unfold worker_step.
  destruct (threads w !! i) as [[perm p]|]; [|discriminate].
  destruct p; cbn;
    unfold DispatchThread_wake, DispatchThread_done, DispatchThread_top,
      DispatchThread_exit; cbn;
    repeat match goal with
      | |- context [if ?c then _ else _] =>
          match type of c with bool => idtac end; destruct c; cbn
      | |- context [match queue_ ?p with _ => _ end] => destruct (queue_ p); cbn
      end;
    intros H; inversion H; reflexivity.
Qed.

Lemma Submit_status task cur spawn (w : World) :
  pool_status_ (pool (snd (Submit task cur spawn w))) = pool_status_ (pool w).
Proof.
  rewrite Submit_unfold. unfold CreateThreadUnlocked. cbv zeta.
  repeat match goal with
    | |- context [if ?c then _ else _] =>
          match type of c with bool => idtac end; destruct c; cbn
    end; reflexivity.
Qed.

Lemma step_shut_down a (w w' : World) :
  pool_status_ (pool w) = shut_down_status ->
  step a w = Some w' ->
  pool_status_ (pool w') = shut_down_status.
Proof.
  intros Hs. destruct a as [spawns|task cur spawn| |i notified]; cbn.
  - unfold Init. rewrite Hs. cbn. intros H; inversion H; subst. exact Hs.
  - intros H; inversion H; subst. rewrite Submit_status. exact Hs.
  - intros H; inversion H; subst. apply Shutdown_status.
  - intros H. apply worker_step_status in H. congruence.
Qed.

Lemma run_shut_down acts : forall (w w' : World),
  pool_status_ (pool w) = shut_down_status ->
  run acts w = Some w' ->
  pool_status_ (pool w') = shut_down_status.
Proof.
  induction acts as [|a acts IH]; intros w w' Hs; cbn.
  - intros H; inversion H; subst. exact Hs.
  - destruct (step a w) as [w1|] eqn:Hstep; [|discriminate].
    apply IH. eapply step_shut_down; eassumption.
Qed.

Lemma run_reachable ncpus acts : forall (w w' : World),
  reachable ncpus w -> run acts w = Some w' -> reachable ncpus w'.
Proof.
  induction acts as [|a acts IH]; intros w w' Hr; cbn.
  - intros H; inversion H; subst. exact Hr.
  - destruct (step a w) as [w1|] eqn:Hstep; [|discriminate].
    apply IH. eapply reach_step; eassumption.
Qed.

Lemma release_of_concat (q : list QueueEntry) :
  concat (map release_of q) = map EvRelease (omap trace q).
Proof.
  induction q as [|e q IH]; [reflexivity|].
  cbn. rewrite IH. unfold release_of. destruct (trace e); reflexivity.
Qed.

Lemma Shutdown_log (w : World) :
  log (shutdown_world (Shutdown w))
  = log w ++ map EvRelease (omap trace (queue_ (pool w))).
Proof.
  unfold Shutdown, Shutdown_loop. cbv zeta.
  destruct (0 <? _); cbn; rewrite release_of_concat; reflexivity.
Qed.

Lemma count_if_exists (f : Worker -> bool) (l : list Worker) :
  0 < count_if f l -> exists i x, l !! i = Some x /\ f x = true.
Proof.
  induction l as [|a l IH]; cbn; [lia|].
  destruct (f a) eqn:Hfa.
  - intros _. exists 0%nat, a. auto.
  - intros H. destruct IH as (i & x & Hl & Hf); [lia|].
    exists (S i), x. auto.
Qed.

(** Once the pool status is not OK, a live worker leaves
    [DispatchThread] within two of its own steps, and [num_threads_]
    goes down by one. *)
Lemma stopped_worker_exits ncpus i (w : World) (wk : Worker) :
  reachable ncpus w ->
  ok (pool_status_ (pool w)) = false ->
  threads w !! i = Some wk ->
  live wk = true ->
  exists acts w',
    run acts w = Some w'
    /\ pool_status_ (pool w') = pool_status_ (pool w)
    /\ num_threads_ (pool w') = num_threads_ (pool w) - 1.
Proof.
  intros Hr Hok Hl Hlive.
  pose proof (reachable_Inv _ _ Hr) as I.
  pose proof (inv_stopped _ I Hok) as Hq.
  pose proof (count_if_pos live _ _ _ Hl Hlive) as Hpos.
  assert (Hsub : int_sub (num_threads_ (pool w)) 1 = num_threads_ (pool w) - 1).
  { apply int_sub_id. destruct I.
    unfold int_range, INT_MIN, INT_MAX in *. lia. }
  assert (Hlen : (i < length (threads w))%nat) by (eapply lookup_lt_Some; eassumption).
  assert (Hexit : forall w0 : World,
    pool w0 = pool w \/ pool w0 = with_active_threads (int_sub (active_threads_ (pool w)) 1) (pool w) ->
    exists r, DispatchThread_top w0 = Some r
      /\ pool_status_ (pool (fst r)) = pool_status_ (pool w)
      /\ num_threads_ (pool (fst r)) = num_threads_ (pool w) - 1
      /\ threads (fst r) = threads w0 /\ log (fst r) = log w0).
  { intros w0 Hw0. unfold DispatchThread_top, DispatchThread_exit.
    destruct Hw0 as [E|E]; cbn -[int_sub]; rewrite ?E; cbn -[int_sub]; rewrite Hok, Hq;
      cbn -[int_sub];
      destruct (_ =? 0); eexists; (split; [reflexivity|]);
      cbn -[int_sub]; rewrite E; cbn -[int_sub]; rewrite Hsub; auto. }
  destruct wk as [perm p]. destruct p as [| |e|e|]; [| | | |discriminate].
  - destruct (Hexit w (or_introl eq_refl)) as ([w1 pc1] & Htop & Hs & Hn & _).
    exists [ActWorker i true]. eexists.
    cbn. unfold worker_step. rewrite Hl. cbn. rewrite Htop. cbn.
    split; [reflexivity|]. auto.
  - destruct (Hexit w (or_introl eq_refl)) as ([w1 pc1] & Htop & Hs & Hn & _).
    exists [ActWorker i true]. eexists.
    cbn. unfold worker_step. rewrite Hl. cbn.
    unfold DispatchThread_wake. destruct perm; cbn; rewrite Htop; cbn;
      (split; [reflexivity|]); auto.
  - set (w1 := mkWorld (pool w)
                 (<[i := mkWorker perm (WRunning e)]> (threads w))
                 (log w ++ EvAdopt (trace e) :: release_of e ++ [EvRun (runnable e)])).
    destruct (Hexit (with_pool (fun p => with_active_threads
                                  (int_sub (active_threads_ p) 1) p) w1)
                (or_intror eq_refl)) as ([w2 pc2] & Htop & Hs & Hn & _).
    exists [ActWorker i true; ActWorker i true]. eexists.
    cbn. unfold worker_step at 1. rewrite Hl. cbn. fold w1.
    unfold worker_step. cbn. rewrite list_lookup_insert_eq by assumption. cbn.
    unfold DispatchThread_done. rewrite Htop. cbn.
    split; [reflexivity|]. auto.
  - destruct (Hexit (with_pool (fun p => with_active_threads
                                  (int_sub (active_threads_ p) 1) p) w)
                (or_intror eq_refl)) as ([w2 pc2] & Htop & Hs & Hn & _).
    exists [ActWorker i true]. eexists.
    cbn. unfold worker_step. rewrite Hl. cbn.
    unfold DispatchThread_done. rewrite Htop. cbn.
    split; [reflexivity|]. auto.
Qed.

Lemma run_app acts1 : forall acts2 (w w1 w2 : World),
  run acts1 w = Some w1 -> run acts2 w1 = Some w2 -> run (acts1 ++ acts2) w = Some w2.
Proof.
  induction acts1 as [|a acts1 IH]; intros acts2 w w1 w2; cbn.
  - intros H; inversion H; subst. auto.
  - destruct (step a w) as [w'|]; [|discriminate]. apply IH.
Qed.

(** A pool that has been shut down can always lose all its threads:
    the wait loop of [Shutdown] is never stuck for good. *)
Lemma stopped_pool_drains ncpus (n : nat) : forall w : World,
  reachable ncpus w ->
  ok (pool_status_ (pool w)) = false ->
  num_threads_ (pool w) = Z.of_nat n ->
  exists acts w', run acts w = Some w' /\ num_threads_ (pool w') = 0.
Proof.
  induction n as [|n IH]; intros w Hr Hok Hn.
  - exists [], w. auto.
  - pose proof (reachable_Inv _ _ Hr) as I.
    destruct (count_if_exists live (threads w)) as (i & wk & Hl & Hlive).
    { rewrite <- (inv_num _ I). lia. }
    destruct (stopped_worker_exits ncpus i w wk Hr Hok Hl Hlive)
      as (acts1 & w1 & Hrun1 & Hs1 & Hn1).
    destruct (IH w1) as (acts2 & w2 & Hrun2 & Hn2).
    + eapply run_reachable; eassumption.
    + rewrite Hs1. exact Hok.
    + lia.
    + exists (acts1 ++ acts2), w2. split; [|exact Hn2].
      eapply run_app; eassumption.
Qed.

Lemma Shutdown_can_return ncpus (w : World) :
  reachable ncpus w ->
  exists acts w',
    run acts (shutdown_world (Shutdown w)) = Some w'
    /\ Shutdown_loop w' = ShutdownReturned w'.
Proof.
  intros Hr.
  assert (Hr1 : reachable ncpus (shutdown_world (Shutdown w))).
  { eapply (reach_step _ ActShutdown); [exact Hr|reflexivity]. }
  pose proof (reachable_Inv _ _ Hr1) as I.
  destruct (stopped_pool_drains ncpus
              (Z.to_nat (num_threads_ (pool (shutdown_world (Shutdown w)))))
              (shutdown_world (Shutdown w)) Hr1) as (acts & w' & Hrun & Hn).
  - rewrite Shutdown_status. reflexivity.
  - pose proof (inv_num _ I). pose proof (count_if_nonneg live
      (threads (shutdown_world (Shutdown w)))). lia.
  - exists acts, w'. split; [exact Hrun|].
    unfold Shutdown_loop. rewrite Hn. reflexivity.
Qed.

(** C6: when [Shutdown] returns (its wait loop sees
    [num_threads_ <= 0] after any number of steps of other threads),
    [num_threads_] is 0 and the queue is empty; [ClearQueue] released
    the trace of each dropped entry that held one, once, and did
    nothing else observable; a second [Shutdown] returns at once and
    leaves the state as it is.  Such a return is always possible: the
    workers of a pool that was shut down can all leave. *)
Theorem C6_shutdown ncpus (w : World) acts (w' : World) :
  reachable ncpus w ->
  run acts (shutdown_world (Shutdown w)) = Some w' ->
  Shutdown_loop w' = ShutdownReturned w' ->
  num_threads_ (pool w') = 0
  /\ queue_ (pool w') = []
  /\ queue_ (pool (shutdown_world (Shutdown w))) = []
  /\ new_events w (shutdown_world (Shutdown w))
     = map EvRelease (omap trace (queue_ (pool w)))
  /\ Shutdown w' = ShutdownReturned w'
  /\ (exists acts0 w0,
        run acts0 (shutdown_world (Shutdown w)) = Some w0
        /\ Shutdown_loop w0 = ShutdownReturned w0).
Proof.
  intros Hr Hrun Hret.
  assert (Hr1 : reachable ncpus (shutdown_world (Shutdown w))).
  { eapply (reach_step _ ActShutdown); [exact Hr|reflexivity]. }
  pose proof (run_reachable _ _ _ _ Hr1 Hrun) as Hr'.
  pose proof (run_shut_down _ _ _ (Shutdown_status w) Hrun) as Hs'.
  apply reachable_Inv in Hr', Hr1.
  assert (Hq' : queue_ (pool w') = []).
  { apply (inv_stopped _ Hr'). rewrite Hs'. reflexivity. }
  assert (Hn' : num_threads_ (pool w') = 0).
  { unfold Shutdown_loop in Hret.
    destruct (0 <? num_threads_ (pool w')) eqn:Hlt; [discriminate|].
    apply Z.ltb_ge in Hlt. pose proof (inv_num _ Hr').
    pose proof (count_if_nonneg live (threads w')). lia. }
  split; [exact Hn'|]. split; [exact Hq'|]. split; [|split; [|split]].
  4: { eapply Shutdown_can_return, Hr. }
  - apply (inv_stopped _ Hr1). rewrite Shutdown_status. reflexivity.
  - apply new_events_app, Shutdown_log.
  - pose proof (inv_queue_size _ Hr') as Hqs. rewrite Hq' in Hqs. cbn in Hqs.
    unfold Shutdown, Shutdown_loop. cbv zeta.
    destruct w' as [[nm mn mx mq tmo st nt act qs q] thr lg].
    cbn in *. subst. unfold ClearQueue, with_pool, emit. cbn.
    rewrite app_nil_r. reflexivity.
Qed.

(** C7: a worker leaves the dispatch loop only when the pool status is
    not OK, or when it is not permanent, its timed wait reported a
    timeout and the queue, checked again, is empty.  A permanent
    worker leaves only when the status is not OK.  In both cases the
    queue is empty when the worker leaves and the exit removes
    nothing from it. *)
Theorem C7_worker_exit ncpus i notified (w w' : World) (wk : Worker) :
  reachable ncpus w ->
  threads w !! i = Some wk ->
  worker_step i notified w = Some w' ->
  pc <$> threads w' !! i = Some WExited ->
  (ok (pool_status_ (pool w)) = false
   \/ (permanent wk = false /\ pc wk = WWaiting /\ notified = false
       /\ queue_ (pool w) = []))
  /\ (permanent wk = true -> ok (pool_status_ (pool w)) = false)
  /\ queue_ (pool w) = []
  /\ queue_ (pool w') = queue_ (pool w).
Proof.
  intros Hr Hl Hstep Hex. apply reachable_Inv in Hr.
  pose proof (inv_stopped _ Hr) as Hstop.
  assert (Hlen : (i < length (threads w))%nat) by (eapply lookup_lt_Some; eassumption).
  revert Hstep Hex. unfold worker_step. rewrite Hl.
  destruct wk as [perm p]. cbn [pc permanent].
  destruct p as [| |e|e|]; cbn;
    unfold DispatchThread_wake, DispatchThread_done, DispatchThread_top,
      DispatchThread_exit; cbn;
    destruct (ok (pool_status_ (pool w))) eqn:Hok; cbn;
    try rewrite (Hstop eq_refl); cbn;
    repeat match goal with
      | |- context [if ?c then _ else _] =>
          match type of c with bool => idtac end; destruct c eqn:?; cbn
      | |- context [match queue_ ?p with _ => _ end] => destruct (queue_ p) eqn:?; cbn
      end;
    intros H; inversion H; subst; clear H; cbn;
    rewrite ?list_lookup_insert_eq by assumption; cbn;
    intros H; inversion H; subst; clear H;
    try (rewrite (Hstop eq_refl) in *); auto 10; try discriminate.
  all: destruct notified; [discriminate|].
  all: split; [right; auto|split; [discriminate|auto]].
Qed.


End PoolLifecycle.

(** ** FutureTask *)

Section FutureTaskProperties.

Context {T : Type}.
Local Abbreviation FutureTask := (@FutureTask T).

Lemma set_state_aborted state (ft : FutureTask) :
  state_ ft = kTaskAbortedState -> set_state state ft = (false, ft).
Proof. intros H. unfold set_state. rewrite decide_True by assumption. reflexivity. Qed.

Lemma set_state_not_aborted state (ft : FutureTask) :
  state_ ft <> kTaskAbortedState ->
  set_state state ft
  = (true, mkFutureTask state (status_ ft) (task_ ft) (listeners_ ft) (latch_ ft)).
Proof. intros H. unfold set_state. rewrite decide_False by assumption. reflexivity. Qed.

Lemma Run_aborted (ft : FutureTask) :
  state_ ft = kTaskAbortedState ->
  FutureTask_Run ft
  = (CountDown ft,
     map (fun cb => EvOnFailure cb aborted_before_run) (listeners_ ft) ++ [EvCountDown]).
Proof.
  intros H. unfold FutureTask_Run. rewrite set_state_aborted by assumption.
  reflexivity.
Qed.

Lemma Run_not_aborted (ft : FutureTask) :
  state_ ft <> kTaskAbortedState ->
  FutureTask_Run ft
  = (mkFutureTask kTaskFinishedState (fst (Task_Run (task_ ft)))
                  (snd (Task_Run (task_ ft))) (listeners_ ft) (Nat.pred (latch_ ft)),
     [EvTaskRun]
     ++ map (notify (fst (Task_Run (task_ ft)))) (listeners_ ft)
     ++ [EvCountDown]).
Proof.
  intros H. unfold FutureTask_Run. rewrite set_state_not_aborted by assumption. cbn.
  destruct (Task_Run (task_ ft)) as [s t]. cbn.
  rewrite set_state_not_aborted by discriminate.
  unfold CountDown, notify. cbn.
  destruct (ok s); reflexivity.
Qed.

Lemma omap_listener_failure s (l : list ListenerCallback) :
  omap listener_of (map (fun cb => EvOnFailure cb s) l) = l.
Proof. induction l as [|c l IH]; cbn; [reflexivity|]. rewrite IH. reflexivity. Qed.

Lemma omap_listener_notify s (l : list ListenerCallback) :
  omap listener_of (map (notify s) l) = l.
Proof.
  induction l as [|c l IH]; cbn; [reflexivity|]. rewrite IH.
  unfold notify. destruct (ok s); reflexivity.
Qed.

Lemma countdown_not_in_failure s (l : list ListenerCallback) :
  EvCountDown ∉ map (fun cb => EvOnFailure cb s) l.
Proof. intros H. apply list_elem_of_fmap in H as (c & Hc & _). discriminate. Qed.

Lemma countdown_not_in_notify s (l : list ListenerCallback) :
  EvCountDown ∉ map (notify s) l.
Proof.
  intros H. apply list_elem_of_fmap in H as (c & Hc & _).
  unfold notify in Hc. destruct (ok s); discriminate.
Qed.

(** C3: [Abort] returns true exactly when the state is not Finished
    and the task's own [Abort] returns true, and the state is then
    Aborted; in the Aborted state every [set_state] returns false and
    changes nothing, and [Run], [Abort] and [AddListener] leave the
    state Aborted as well. *)
Theorem C3_abort_and_aborted_is_final (ft : FutureTask) :
  (fst (fst (FutureTask_Abort ft)) = true <->
     state_ ft <> kTaskFinishedState /\ fst (Task_Abort (task_ ft)) = true)
  /\ (fst (fst (FutureTask_Abort ft)) = true ->
      state_ (snd (fst (FutureTask_Abort ft))) = kTaskAbortedState)
  /\ (fst (fst (FutureTask_Abort ft)) = false ->
      state_ (snd (fst (FutureTask_Abort ft))) = state_ ft)
  /\ (state_ ft = kTaskAbortedState ->
      (forall state, set_state state ft = (false, ft))
      /\ state_ (fst (FutureTask_Run ft)) = kTaskAbortedState
      /\ state_ (snd (fst (FutureTask_Abort ft))) = kTaskAbortedState
      /\ (forall cb, state_ (fst (FutureTask_AddListener cb ft)) = kTaskAbortedState)).
Proof.
  unfold FutureTask_Abort.
  split; [|split; [|split]].
  - destruct (decide (state_ ft <> kTaskFinishedState)) as [Hne|He].
    + destruct (Task_Abort (task_ ft)) as [[|] t]; cbn; split; auto.
      intros [_ H]; exact H.
    + cbn. split; [discriminate|]. intros [H _]. contradiction.
  - destruct (decide (state_ ft <> kTaskFinishedState)) as [Hne|He]; [|discriminate].
    destruct (Task_Abort (task_ ft)) as [[|] t]; cbn; [reflexivity|discriminate].
  - destruct (decide (state_ ft <> kTaskFinishedState)) as [Hne|He]; [|reflexivity].
    destruct (Task_Abort (task_ ft)) as [[|] t]; cbn; [discriminate|reflexivity].
  - intros Ha. split; [|split; [|split]].
    + intros state. apply set_state_aborted, Ha.
    + rewrite Run_aborted by assumption. exact Ha.
    + destruct (decide (state_ ft <> kTaskFinishedState)) as [Hne|He]; [|exact Ha].
      destruct (Task_Abort (task_ ft)) as [[|] t]; cbn; [reflexivity|exact Ha].
    + intros cb. unfold FutureTask_AddListener.
      rewrite decide_False by (intros [_ H]; contradiction).
      destruct (ok (status_ ft)); exact Ha.
Qed.

(** C4: [Run] on an Aborted FutureTask does not call the task: its
    only actions are [OnFailure] with the aborted-before-it-ran status
    on every registered listener, in registration order, followed by
    the latch count-down.  On every path of [Run] the count-down is the
    last action, it happens once, and each registered listener has been
    called once before it. *)
Theorem C4_run_aborted_and_latch_last (ft : FutureTask) :
  (state_ ft = kTaskAbortedState ->
     snd (FutureTask_Run ft)
     = map (fun cb => EvOnFailure cb aborted_before_run) (listeners_ ft)
       ++ [EvCountDown]
     /\ (EvTaskRun ∉ snd (FutureTask_Run ft))
     /\ task_ (fst (FutureTask_Run ft)) = task_ ft
     /\ status_ (fst (FutureTask_Run ft)) = status_ ft)
  /\ (exists evs,
        snd (FutureTask_Run ft) = evs ++ [EvCountDown]
        /\ (EvCountDown ∉ evs)
        /\ omap listener_of evs = listeners_ ft)
  /\ latch_ (fst (FutureTask_Run ft)) = Nat.pred (latch_ ft).
Proof.
  split; [|split].
  - intros Ha. rewrite Run_aborted by assumption. cbn.
    split; [reflexivity|]. split; [|auto].
    intros H. apply elem_of_app in H as [H|H].
    + apply list_elem_of_fmap in H as (c & Hc & _). discriminate.
    + apply list_elem_of_singleton in H. discriminate.
  - destruct (decide (state_ ft = kTaskAbortedState)) as [Ha|Hn].
    + rewrite Run_aborted by assumption. cbn.
      eexists. split; [reflexivity|]. split.
      * apply countdown_not_in_failure.
      * apply omap_listener_failure.
    + rewrite Run_not_aborted by assumption. cbn [snd].
      exists ([EvTaskRun] ++ map (notify (fst (Task_Run (task_ ft)))) (listeners_ ft)).
      split; [rewrite <- app_assoc; reflexivity|]. split.
      * intros H. apply elem_of_app in H as [H|H].
        -- apply list_elem_of_singleton in H. discriminate.
        -- revert H. apply countdown_not_in_notify.
      * cbn. apply omap_listener_notify.
  - destruct (decide (state_ ft = kTaskAbortedState)) as [Ha|Hn].
    + rewrite Run_aborted by assumption. reflexivity.
    + rewrite Run_not_aborted by assumption. reflexivity.
Qed.

(** Outside the aborted-before-run path every registered listener is
    called once by [Run], in registration order, with the outcome that
    [status()] reports afterwards. *)
Lemma Run_notifies_status (ft : FutureTask) :
  state_ ft <> kTaskAbortedState ->
  snd (FutureTask_Run ft)
  = [EvTaskRun] ++ map (notify (status (fst (FutureTask_Run ft)))) (listeners_ ft)
    ++ [EvCountDown].
Proof. intros H. rewrite Run_not_aborted by assumption. reflexivity. Qed.

(** A listener registered in a terminal state is called at once with
    the cached status and is not stored. *)
Lemma AddListener_terminal cb (ft : FutureTask) :
  is_done ft = true ->
  FutureTask_AddListener cb ft = (ft, [notify (status ft) cb]).
Proof.
  unfold is_done, FutureTask_AddListener, notify, status. intros H.
  apply orb_true_iff in H.
  rewrite decide_False.
  - destruct (ok (status_ ft)); reflexivity.
  - intros [H1 H2]. destruct H as [H|H]; apply bool_decide_eq_true in H; contradiction.
Qed.

End FutureTaskProperties.

(** C2 at the input
    [AddListener(7); Abort(); Run(); AddListener(8)] on a FutureTask of
    an abortable task: [Run] calls [OnFailure] of listener 7 with the
    aborted-before-it-ran status but does not store that status, so
    [status()] is still the default-constructed OK, and listener 8,
    registered afterwards, is told [OnSuccess]. *)
Theorem C2_aborted_run_outcome_differs_from_status :
  let ft0 := FutureTask_new OK (BoundTask OK true) in
  let ft1 := fst (FutureTask_AddListener 7%nat ft0) in
  let ft2 := snd (fst (FutureTask_Abort ft1)) in
  let ft3 := fst (FutureTask_Run ft2) in
  fst (fst (FutureTask_Abort ft1)) = true
  /\ is_aborted ft2 = true
  /\ snd (FutureTask_Run ft2) = [EvOnFailure 7%nat aborted_before_run; EvCountDown]
  /\ status ft3 = OK
  /\ snd (FutureTask_AddListener 8%nat ft3) = [EvOnSuccess 8%nat].
Proof. cbv zeta. repeat split; vm_compute; reflexivity. Qed.

(** ** TaskExecutor *)

Section TaskExecutorProperties.

Context {T : Type}.
Variable default_status : Status.

Local Abbreviation ExecWorld := (@ExecWorld T).
Local Abbreviation PoolWorld := (@World FutureRef).
Local Abbreviation PoolWorker := (@Worker FutureRef).























End TaskExecutorProperties.

(** ** The theorems on the example executions *)

Lemma example_builder_Built : Built 4 example_builder.
Proof.
  apply (Built_queue 4 2 (mkBuilder "pool" 0 2 INT_MAX (FromMilliseconds 500)));
    [|unfold int_range, INT_MIN, INT_MAX; lia|reflexivity].
  apply (Built_max 4 2 (ThreadPoolBuilder_new 4 "pool"));
    [|unfold int_range, INT_MIN, INT_MAX; lia|reflexivity].
  apply Built_new.
Qed.

Lemma example_new_reachable : reachable 4 example_new.
Proof.
  apply reach_new; [unfold int_range, INT_MIN, INT_MAX; lia|].
  apply example_builder_Built.
Qed.

Lemma run_from_reachable (w : @World nat) acts :
  reachable 4 w -> is_Some (run acts w) -> reachable 4 (run_from w acts).
Proof.
  intros Hr [w' Hw]. unfold run_from. rewrite Hw.
  eapply run_reachable; eassumption.
Qed.

Lemma example_running_reachable : reachable 4 example_running.
Proof.
  apply run_from_reachable; [apply example_new_reachable|].
  vm_compute. eauto.
Qed.

Lemma example_loaded_reachable : reachable 4 example_loaded.
Proof.
  apply run_from_reachable; [apply example_running_reachable|].
  vm_compute. eauto.
Qed.

Lemma example_idle_reachable : reachable 4 example_idle.
Proof.
  apply run_from_reachable; [apply example_running_reachable|].
  vm_compute. eauto.
Qed.

(** C5 on the running example pool, which has no thread yet: the
    submission starts one non-permanent worker. *)
Lemma C5_submit_spawn_witness :
  creations (new_events example_running
               (snd (Submit 10%nat None OK example_running))) = [(false, OK)]
  /\ fst (Submit 10%nat None OK example_running) = OK
  /\ threads (snd (Submit 10%nat None OK example_running))
     = threads example_running ++ [mkWorker false WStart].
Proof.
  destruct (C5_submit_spawn 4 10%nat None OK example_running
              example_running_reachable eq_refl) as [Hwanted _].
  - vm_compute. discriminate.
  - destruct Hwanted as (Hc & Hok & _).
    + vm_compute. auto.
    + destruct (Hok eq_refl) as (Hst & Hthr & _). auto.
Defined.

(** C9 on the example pool with two queued items. *)
Lemma C9_queue_size_mirrors_queue_witness :
  queue_size_ (pool example_loaded) = 2
  /\ queue_size_ (pool example_loaded)
     = Z.of_nat (length (queue_ (pool example_loaded))).
Proof.
  split; [reflexivity|].
  apply (C9_queue_size_mirrors_queue 4 example_loaded example_loaded_reachable).
Defined.

(** C6 on the example pool with two queued items and two workers: the
    two traces are released and both workers leave. *)
Lemma C6_shutdown_witness :
  num_threads_ (pool example_loaded) = 2
  /\ num_threads_ (pool example_stopped) = 0
  /\ queue_ (pool example_stopped) = []
  /\ new_events example_loaded (shutdown_world (Shutdown example_loaded))
     = [EvRelease 5%nat; EvRelease 6%nat]
  /\ Shutdown example_stopped = ShutdownReturned example_stopped.
Proof.
  split; [reflexivity|].
  destruct (C6_shutdown 4 example_loaded example_drain example_stopped
              example_loaded_reachable) as (Hn & Hq & _ & Hev & Hagain & _).
  - vm_compute. reflexivity.
  - vm_compute. reflexivity.
  - auto.
Defined.

(** C7 on the idle example pool: the non-permanent worker leaves on a
    timeout with the queue empty. *)
Lemma C7_worker_exit_witness :
  ok (pool_status_ (pool example_idle)) = true
  /\ threads example_reaped !! 0%nat = Some (mkWorker false WExited)
  /\ queue_ (pool example_idle) = []
  /\ queue_ (pool example_reaped) = queue_ (pool example_idle).
Proof.
  split; [reflexivity|]. split; [reflexivity|].
  destruct (C7_worker_exit 4 0%nat false example_idle example_reaped
              (mkWorker false WWaiting) example_idle_reachable)
    as (_ & _ & Hq & Hsame).
  - reflexivity.
  - vm_compute. reflexivity.
  - reflexivity.
  - auto.
Defined.


(** * Further properties of the pool *)

Section PoolExtras.

Context {Runnable : Type}.
Local Abbreviation World := (@World Runnable).
Local Abbreviation Worker := (@Worker Runnable).
Local Abbreviation QueueEntry := (@QueueEntry Runnable).

Ltac step_fact :=
  first [ reflexivity | assumption | (intros; discriminate) | congruence ].

(** What one step of a worker does to the queue, the thread table,
    [num_threads_] and the log: it fetches the head of the queue, or
    starts to wait, or leaves, or adopts the trace of the entry it
    fetched. *)
Lemma worker_step_effect i notified (w w' : World) (wk : Worker) :
  Inv w ->
  threads w !! i = Some wk ->
  worker_step i notified w = Some w' ->
  pool_status_ (pool w') = pool_status_ (pool w)
  /\ min_threads_ (pool w') = min_threads_ (pool w)
  /\ max_threads_ (pool w') = max_threads_ (pool w)
  /\ max_queue_size_ (pool w') = max_queue_size_ (pool w)
  /\ ((exists e rest,
         queue_ (pool w) = e :: rest /\ queue_ (pool w') = rest
         /\ ok (pool_status_ (pool w)) = true
         /\ (forall e', pc wk <> WFetched e')
         /\ threads w' = <[i := mkWorker (permanent wk) (WFetched e)]> (threads w)
         /\ num_threads_ (pool w') = num_threads_ (pool w)
         /\ log w' = log w)
      \/ (queue_ (pool w) = [] /\ queue_ (pool w') = []
          /\ (forall e', pc wk <> WFetched e')
          /\ threads w' = <[i := mkWorker (permanent wk) WWaiting]> (threads w)
          /\ num_threads_ (pool w') = num_threads_ (pool w)
          /\ log w' = log w)
      \/ (queue_ (pool w) = [] /\ queue_ (pool w') = []
          /\ (forall e', pc wk <> WFetched e')
          /\ threads w' = <[i := mkWorker (permanent wk) WExited]> (threads w)
          /\ num_threads_ (pool w') = num_threads_ (pool w) - 1
          /\ log w' = log w)
      \/ (exists e,
            pc wk = WFetched e
            /\ queue_ (pool w') = queue_ (pool w)
            /\ threads w' = <[i := mkWorker (permanent wk) (WRunning e)]> (threads w)
            /\ num_threads_ (pool w') = num_threads_ (pool w)
            /\ log w' = log w ++ EvAdopt (trace e) :: release_of e ++ [EvRun (runnable e)])).
Proof.
  intros I Hl. unfold worker_step. rewrite Hl.
  pose proof (inv_stopped _ I) as Hstop.
  assert (Hlive : pc wk <> WExited ->
                  int_sub (num_threads_ (pool w)) 1 = num_threads_ (pool w) - 1).
  { intros Hpc. apply int_sub_id.
    assert (live wk = true) by (unfold live; destruct (pc wk); congruence).
    pose proof (count_if_pos live _ _ _ Hl H).
    destruct I. unfold int_range, INT_MIN, INT_MAX in *. lia. }
  destruct wk as [perm p]. cbn [pc permanent] in *.
  destruct p as [| |e|e|]; cbn -[int_sub];
    unfold DispatchThread_wake, DispatchThread_done, DispatchThread_top,
      DispatchThread_exit, DispatchThread_adopt; cbn -[int_sub];
    destruct (ok (pool_status_ (pool w))) eqn:Hok; cbn -[int_sub];
    try rewrite (Hstop eq_refl); cbn -[int_sub];
    repeat match goal with
      | |- context [if ?c then _ else _] =>
          match type of c with bool => idtac end; destruct c eqn:?; cbn -[int_sub]
      | |- context [match queue_ ?p with _ => _ end] =>
          destruct (queue_ p) as [|entry rest] eqn:?; cbn -[int_sub]
      end;
    intros H; inversion H; subst; clear H; cbn -[int_sub];
    (split; [reflexivity|]); (split; [reflexivity|]);
    (split; [reflexivity|]); (split; [reflexivity|]);
    try rewrite (Hstop eq_refl);
    rewrite ?(Hlive ltac:(discriminate));
    first
      [ left; eexists _, _; repeat (split; [step_fact|]); step_fact
      | right; left; repeat (split; [step_fact|]); step_fact
      | right; right; left; repeat (split; [step_fact|]); step_fact
      | right; right; right; eexists; repeat (split; [step_fact|]); step_fact ].
Qed.


(** What an accepted [Submit] does. *)
Lemma Submit_effect task cur spawn (w : World) :
  ok (fst (Submit task cur spawn w)) = true ->
  fst (Submit task cur spawn w) = OK
  /\ ok (pool_status_ (pool w)) = true
  /\ queue_size_ (pool w) <> max_queue_size_ (pool w)
  /\ pool_status_ (pool (snd (Submit task cur spawn w))) = pool_status_ (pool w)
  /\ min_threads_ (pool (snd (Submit task cur spawn w))) = min_threads_ (pool w)
  /\ max_threads_ (pool (snd (Submit task cur spawn w))) = max_threads_ (pool w)
  /\ queue_ (pool (snd (Submit task cur spawn w))) = queue_ (pool w) ++ [mkEntry task cur]
  /\ exists ws evs,
       threads (snd (Submit task cur spawn w)) = threads w ++ ws
       /\ Forall (fun wk => pc wk = WStart) ws
       /\ log (snd (Submit task cur spawn w))
          = log w ++ evs ++ match cur with Some t => [EvAddRef t] | None => [] end
       /\ Forall (fun ev => forall t, ev <> EvAddRef t /\ ev <> EvRelease t) evs
       /\ ((Submit_spawns (pool w) = true /\ length ws = 1%nat
            /\ num_threads_ (pool (snd (Submit task cur spawn w)))
               = int_add (num_threads_ (pool w)) 1)
           \/ (length ws = 0%nat
               /\ (Submit_spawns (pool w) = true -> num_threads_ (pool w) <> 0)
               /\ num_threads_ (pool (snd (Submit task cur spawn w)))
                  = num_threads_ (pool w))).
Proof.
  rewrite Submit_unfold.
  destruct (ok (pool_status_ (pool w))) eqn:Hok; cbn [negb]; [|cbn; congruence].
  destruct (queue_size_ (pool w) =? max_queue_size_ (pool w)) eqn:Hq; [discriminate|].
  apply Z.eqb_neq in Hq.
  unfold CreateThreadUnlocked. cbv zeta.
  destruct (Submit_spawns (pool w)) eqn:Hsp;
    [destruct (ok spawn) eqn:Hs;
     [|destruct (num_threads_ (pool w) =? 0) eqn:Hz; [cbn; congruence|]]|];
    intros _; cbn -[int_add];
    repeat (split; [first [reflexivity|assumption]|]).
  - eexists [_], [_]. rewrite <- !app_assoc. cbn -[int_add].
    split; [reflexivity|]. split; [repeat constructor|]. split; [reflexivity|].
    split; [repeat constructor; discriminate|]. left. auto.
  - exists [], [EvThreadCreate
                 (num_threads_ (pool w) <? min_threads_ (pool w)) spawn;
               EvWarning spawn].
    rewrite <- !app_assoc, app_nil_r. cbn.
    split; [reflexivity|]. split; [constructor|]. split; [reflexivity|].
    split; [repeat constructor; discriminate|]. right.
    apply Z.eqb_neq in Hz. auto.
  - exists [], []. rewrite app_nil_r. cbn.
    split; [reflexivity|]. split; [constructor|]. split; [reflexivity|].
    split; [constructor|]. right. split; [reflexivity|]. split; [discriminate|reflexivity].
Qed.

(** What a rejected [Submit] does: at most a logged thread creation. *)
Lemma Submit_rejected_log task cur spawn (w : World) :
  ok (fst (Submit task cur spawn w)) = false ->
  exists evs,
    log (snd (Submit task cur spawn w)) = log w ++ evs
    /\ Forall (fun ev => forall t, ev <> EvAddRef t /\ ev <> EvRelease t) evs.
Proof.
  rewrite Submit_unfold.
  destruct (negb (ok (pool_status_ (pool w))));
    [intros _; exists []; rewrite app_nil_r; split; [reflexivity|constructor]|].
  destruct (queue_size_ (pool w) =? max_queue_size_ (pool w));
    [intros _; exists []; rewrite app_nil_r; split; [reflexivity|constructor]|].
  destruct (Submit_spawns (pool w)); [|discriminate].
  destruct (ok spawn) eqn:Hs; [discriminate|].
  destruct (num_threads_ (pool w) =? 0); [|discriminate].
  intros _. unfold CreateThreadUnlocked. cbv zeta. rewrite Hs. cbn.
  eexists [_]. split; [reflexivity|]. repeat constructor; discriminate.
Qed.

(** The loop of [Init] only adds threads that have not started yet and
    logs their creation. *)
Lemma Init_loop_effect spawns n : forall i (w : World) st w',
  Init_loop spawns n i w = Some (st, w') ->
  st = OK
  /\ (forall k, (k < n)%nat -> ok (spawns (i + k)%nat) = true)
  /\ pool_status_ (pool w') = pool_status_ (pool w)
  /\ min_threads_ (pool w') = min_threads_ (pool w)
  /\ max_threads_ (pool w') = max_threads_ (pool w)
  /\ queue_ (pool w') = queue_ (pool w)
  /\ exists ws evs,
       threads w' = threads w ++ ws
       /\ length ws = n
       /\ Forall (fun wk => pc wk = WStart) ws
       /\ log w' = log w ++ evs
       /\ Forall (fun ev => forall t, ev <> EvAddRef t /\ ev <> EvRelease t) evs.
Proof.
  induction n as [|n IH]; intros i w st w' Hrun; cbn in Hrun.
  - inversion Hrun; subst. repeat (split; [first [reflexivity|intros; lia]|]).
    exists [], []. rewrite !app_nil_r. repeat split; constructor.
  - unfold CreateThreadUnlocked in Hrun. cbv zeta in Hrun.
    destruct (ok (spawns i)) eqn:Hs; cbn in Hrun; rewrite Hs in Hrun; [|discriminate].
    apply IH in Hrun as (-> & Hsp & Hst & Hmin & Hmax & Hq & ws & evs & Ht & Hlen & Hws & Hlog & Hevs).
    cbn in *. split; [reflexivity|]. split.
    { intros [|k] Hk; [rewrite Nat.add_0_r; exact Hs|].
      replace (i + S k)%nat with (S i + k)%nat by lia. apply Hsp. lia. }
    repeat (split; [assumption|]).
    eexists (_ :: ws), (_ :: evs). rewrite Ht, Hlog, <- !app_assoc. cbn.
    split; [reflexivity|]. split; [lia|]. split; [constructor; [reflexivity|assumption]|].
    split; [reflexivity|]. constructor; [intros t; split; discriminate|assumption].
Qed.


Lemma Init_loop_success spawns n : forall i (w : World),
  (forall k, (k < n)%nat -> ok (spawns (i + k)%nat) = true) ->
  is_Some (Init_loop spawns n i w).
Proof.
  induction n as [|n IH]; intros i w Hsp; cbn; [eauto|].
  unfold CreateThreadUnlocked. cbv zeta.
  pose proof (Hsp 0%nat ltac:(lia)) as Hs. rewrite Nat.add_0_r in Hs.
  rewrite Hs. cbn. rewrite Hs. apply IH.
  intros k Hk. replace (S i + k)%nat with (i + S k)%nat by lia. apply Hsp. lia.
Qed.


Lemma count_if_all (f : Worker -> bool) (l : list Worker) :
  Forall (fun x => f x = true) l -> count_if f l = Z.of_nat (length l).
Proof.
  induction 1 as [|x l Hx _ IH]; [reflexivity|].
  cbn [count_if length]. rewrite Hx, IH. lia.
Qed.

Lemma count_if_none (f : Worker -> bool) (l : list Worker) :
  count_if f l = 0 <-> Forall (fun x => f x = false) l.
Proof.
  induction l as [|x l IH]; cbn.
  - split; [constructor|reflexivity].
  - pose proof (count_if_nonneg f l). destruct (f x) eqn:Hx; split.
    + lia.
    + intros H'. inversion H'; subst. congruence.
    + intros H'. constructor; [exact Hx|]. apply IH. lia.
    + intros H'. inversion H'; subst. apply IH in H3. lia.
Qed.

Lemma started_live (ws : list Worker) :
  Forall (fun wk => pc wk = WStart) ws -> Forall (fun wk => live wk = true) ws.
Proof.
  induction 1 as [|wk ws H _ IH]; constructor; [|exact IH].
  unfold live. rewrite H. reflexivity.
Qed.

(** After a successful [Init] of an uninitialised pool there are
    exactly [min_threads_] threads and nothing is queued. *)
Lemma Init_fresh_effect spawns (w : World) st w' :
  Inv w ->
  IsUninitialized (pool_status_ (pool w)) = true ->
  Init spawns w = Some (st, w') ->
  st = OK
  /\ pool_status_ (pool w') = OK
  /\ min_threads_ (pool w') = min_threads_ (pool w)
  /\ max_threads_ (pool w') = max_threads_ (pool w)
  /\ queue_ (pool w') = []
  /\ num_threads_ (pool w') = min_threads_ (pool w)
  /\ Forall (fun wk => pc wk = WStart) (threads w')
  /\ exists evs,
       log w' = log w ++ evs
       /\ Forall (fun ev => forall t, ev <> EvAddRef t /\ ev <> EvRelease t) evs.
Proof.
  intros I Hu Hinit. pose proof (Inv_Init _ _ _ _ I Hinit) as I'.
  unfold Init in Hinit. rewrite Hu in Hinit. cbn [negb] in Hinit. cbv zeta in Hinit.
  apply Init_loop_effect in Hinit
    as (-> & _ & Hst & Hmin & Hmax & Hq & ws & evs & Ht & Hlen & Hws & Hlog & Hevs).
  cbn in *.
  assert (Hq0 : queue_ (pool w) = []).
  { apply (inv_stopped _ I). destruct (pool_status_ (pool w)); [discriminate|reflexivity]. }
  rewrite (inv_uninit _ I Hu) in Ht. cbn in Ht.
  repeat (split; [first [reflexivity|congruence]|]).
  split.
  { rewrite (inv_num _ I'), Ht, (count_if_all live ws (started_live ws Hws)), Hlen.
    pose proof (inv_min _ I). lia. }
  split; [rewrite Ht; exact Hws|]. eauto.
Qed.

Lemma Bounds_new ncpus (b : ThreadPoolBuilder) :
  Built ncpus b -> Bounds (@ThreadPool_new Runnable b).
Proof.
  intros Hb. apply Built_ok in Hb as [Hmin _ _].
  split; cbn; [lia|congruence].
Qed.

Lemma Bounds_step a (w w' : World) :
  Inv w -> Bounds w -> step a w = Some w' -> Bounds w'.
Proof.
  intros I [Ht Hw] Hstep.
  pose proof (count_if_nonneg live (threads w)) as Hl0.
  pose proof (inv_num _ I) as Hnum.
  destruct a as [spawns|task cur spawn| |i notified]; cbn in Hstep.
  - destruct (Init spawns w) as [[st w1]|] eqn:Hi; [|discriminate].
    cbn in Hstep. inversion Hstep; subst; clear Hstep.
    destruct (IsUninitialized (pool_status_ (pool w))) eqn:Hu.
    + apply (Init_fresh_effect _ _ _ _ I Hu) in Hi
        as (_ & _ & Hmin & Hmax & Hq & Hn & _).
      split; [rewrite Hn, Hmin, Hmax; lia|]. rewrite Hq. congruence.
    + unfold Init in Hi. rewrite Hu in Hi. cbn in Hi. inversion Hi; subst.
      split; assumption.
  - inversion Hstep; subst; clear Hstep.
    destruct (ok (fst (Submit task cur spawn w))) eqn:Hok.
    + pose proof (Submit_spawns_wanted w I) as Hsw.
      apply Submit_effect in Hok
        as (_ & Hst & Hq & _ & Hmin & Hmax & _ & ws & evs & _ & _ & _ & _ & Hcase).
      specialize (Hsw Hq).
      pose proof (inv_active _ I) as Hact.
      pose proof (inv_queue_size _ I) as Hqs.
      pose proof (count_if_nonneg busy (threads w)) as Hb0.
      destruct Hcase as [(Hsp & _ & Hn)|(_ & Hnz & Hn)].
      * apply Hsw in Hsp as [_ Hlt].
        rewrite int_add_id in Hn
          by (pose proof (inv_max _ I); unfold int_range, INT_MIN, INT_MAX in *; lia).
        split; rewrite Hn, ?Hmin, Hmax; lia.
      * split; rewrite Hn, ?Hmin, Hmax; [exact Ht|]. intros Hmax1 _.
        destruct (Submit_spawns (pool w)) eqn:Hsp; [specialize (Hnz eq_refl); lia|].
        destruct (Z.le_gt_cases 1 (num_threads_ (pool w))) as [|Hlt]; [assumption|].
        exfalso. assert (Hsp' : false = true).
        { apply Hsw. unfold spawn_wanted. lia. }
        discriminate.
    + apply Submit_rejected_unchanged in Hok as [Hp _]. split; rewrite Hp; assumption.
  - inversion Hstep; subst; clear Hstep.
    unfold Shutdown, Shutdown_loop. cbv zeta.
    destruct (0 <? _); cbn;
      (split; cbn; [exact Ht|intros _ H; exfalso; apply H; reflexivity]).
  - unfold worker_step in Hstep.
    destruct (threads w !! i) as [wk|] eqn:Hl; [|discriminate].
    pose proof (worker_step_effect i notified w w' wk I Hl) as He.
    unfold worker_step in He. rewrite Hl in He. specialize (He Hstep).
    destruct He as (_ & Hmin & Hmax & _ & Hcase).
    destruct Hcase as [(e & rest & Hq & Hq' & _ & _ & _ & Hn & _)
                      |[(Hq & Hq' & _ & _ & Hn & _)
                      |[(Hq & Hq' & _ & _ & Hn & _)
                      |(e & _ & Hq' & _ & Hn & _)]]];
      split; rewrite Hn, ?Hmin, Hmax, ?Hq'; try lia; try congruence.
    + intros Hmax1 _. apply Hw; [exact Hmax1|]. rewrite Hq. discriminate.
    + exact Hw.
Qed.

Lemma reachable_Bounds ncpus (w : World) : reachable ncpus w -> Bounds w.
Proof.
  induction 1 as [b Hn Hb|a w w' Hr IH Hs].
  - eapply Bounds_new, Hb.
  - eapply Bounds_step; [eapply reachable_Inv; exact Hr|exact IH|exact Hs].
Qed.


(** X1: in every reachable state
    [0 <= active_threads_ <= num_threads_ <= max(min_threads_, max_threads_)]:
    [Submit] never creates a thread beyond [max_threads_], and only
    [Init] may go up to [min_threads_]. *)
Theorem X1_thread_count_bounds ncpus (w : World) :
  reachable ncpus w ->
  0 <= active_threads_ (pool w)
  /\ active_threads_ (pool w) <= num_threads_ (pool w)
  /\ num_threads_ (pool w) <= Z.max (min_threads_ (pool w)) (max_threads_ (pool w)).
Proof.
  intros Hr. pose proof (reachable_Inv _ _ Hr) as I.
  pose proof (reachable_Bounds _ _ Hr) as [Ht _].
  rewrite (inv_active _ I), (inv_num _ I) in *.
  split; [apply count_if_nonneg|]. split; [|exact Ht].
  apply count_if_le, busy_live.
Qed.

(** X2: in every reachable state the queue holds at most
    [max_queue_size_] items. *)
Theorem X2_queue_never_exceeds_max ncpus (w : World) :
  reachable ncpus w ->
  Z.of_nat (length (queue_ (pool w))) <= max_queue_size_ (pool w).
Proof.
  intros Hr. apply reachable_Inv in Hr.
  rewrite <- (inv_queue_size _ Hr). apply (inv_queue_bound _ Hr).
Qed.

(** X3: while the pool status is OK, exactly [min_threads_] permanent
    workers are alive, so [num_threads_ >= min_threads_]: permanent
    workers are created by [Init] only and leave only after the status
    has changed. *)
Theorem X3_permanent_workers_stay ncpus (w : World) :
  reachable ncpus w ->
  ok (pool_status_ (pool w)) = true ->
  count_if live_permanent (threads w) = min_threads_ (pool w)
  /\ min_threads_ (pool w) <= num_threads_ (pool w).
Proof.
  intros Hr Hok. apply reachable_Inv in Hr.
  split; [apply (inv_permanent _ Hr Hok)|].
  rewrite <- (inv_permanent _ Hr Hok), (inv_num _ Hr).
  apply count_if_le, live_permanent_live.
Qed.

(** X4: queued work is never left without a worker: in a pool with
    [max_threads_ >= 1], whenever the queue is not empty the status is
    OK and at least one worker thread is alive. *)
Theorem X4_queued_work_has_a_worker ncpus (w : World) :
  reachable ncpus w ->
  1 <= max_threads_ (pool w) ->
  queue_ (pool w) <> [] ->
  ok (pool_status_ (pool w)) = true
  /\ 1 <= num_threads_ (pool w)
  /\ exists i wk, threads w !! i = Some wk /\ live wk = true.
Proof.
  intros Hr Hmax Hq. pose proof (reachable_Inv _ _ Hr) as I.
  pose proof (reachable_Bounds _ _ Hr) as [_ Hw].
  specialize (Hw Hmax Hq).
  split.
  - destruct (ok (pool_status_ (pool w))) eqn:Hok; [reflexivity|].
    exfalso. apply Hq, (inv_stopped _ I Hok).
  - split; [exact Hw|]. apply count_if_exists. rewrite <- (inv_num _ I). lia.
Qed.

(** X5: [Shutdown] is final.  Whatever happens after it, the status
    stays ServiceUnavailable, every [Submit] returns that status and
    changes nothing, and [Init] returns NotSupported and changes
    nothing: the pool cannot be restarted. *)
Theorem X5_shutdown_is_final (w : World) acts (w' : World) :
  run acts (shutdown_world (Shutdown w)) = Some w' ->
  pool_status_ (pool w') = shut_down_status
  /\ (forall task cur spawn, Submit task cur spawn w' = (shut_down_status, w'))
  /\ (forall spawns,
        Init spawns w'
        = Some (NotSupported "The thread pool is already initialized", w')).
Proof.
  intros Hrun.
  pose proof (run_shut_down _ _ _ (Shutdown_status w) Hrun) as Hs.
  split; [exact Hs|]. split.
  - intros task cur spawn. unfold Submit. rewrite Hs. reflexivity.
  - intros spawns. unfold Init. rewrite Hs. reflexivity.
Qed.

Lemma count_if_full (f : Worker -> bool) (l : list Worker) :
  count_if f l = Z.of_nat (length l) -> Forall (fun x => f x = true) l.
Proof.
  induction l as [|x l IH]; cbn [count_if length]; [constructor|].
  pose proof (count_if_le_length f l) as Hle. destruct (f x) eqn:Hx; intros Hc.
  - constructor; [exact Hx|]. apply IH. lia.
  - lia.
Qed.

(** X6: [Build] on a validly configured builder, when every thread
    creation succeeds, returns OK with a pool whose status is OK, whose
    queue is empty and whose threads are exactly [min_threads]
    permanent workers that have not started yet; a second [Init] on
    that pool returns NotSupported and changes nothing. *)
Theorem X6_Build_starts_permanent_workers ncpus (b : ThreadPoolBuilder) spawns :
  int_range ncpus ->
  Built ncpus b ->
  (forall k, (k < Z.to_nat (b_min_threads_ b))%nat -> ok (spawns k) = true) ->
  exists w : World,
    Build spawns b = Some (OK, w)
    /\ pool_status_ (pool w) = OK
    /\ queue_ (pool w) = []
    /\ num_threads_ (pool w) = b_min_threads_ b
    /\ length (threads w) = Z.to_nat (b_min_threads_ b)
    /\ Forall (fun wk => wk = mkWorker true WStart) (threads w)
    /\ (forall spawns',
          Init spawns' w
          = Some (NotSupported "The thread pool is already initialized", w)).
Proof.
  intros Hn Hb Hsp.
  pose proof (@Inv_new Runnable ncpus b Hn Hb) as I0.
  destruct (Init_loop_success spawns (Z.to_nat (b_min_threads_ b)) 0
              (with_pool (with_pool_status OK) (ThreadPool_new b)) Hsp)
    as [[st w] Hloop].
  assert (Hinit : Init spawns (@ThreadPool_new Runnable b) = Some (st, w))
    by exact Hloop.
  pose proof (Inv_Init _ _ _ _ I0 Hinit) as I.
  destruct (Init_fresh_effect _ _ _ _ I0 eq_refl Hinit)
    as (-> & Hst & Hmin & _ & Hq & Hnum & Hws & _).
  cbn in Hmin, Hnum.
  exists w. unfold Build. rewrite Hinit. cbn.
  repeat (split; [assumption || reflexivity|]).
  assert (Hlen : Z.of_nat (length (threads w)) = b_min_threads_ b).
  { rewrite <- Hnum, (inv_num _ I). symmetry.
    apply count_if_all, started_live, Hws. }
  split; [lia|]. split.
  - assert (Hperm : Forall (fun wk => live_permanent wk = true) (threads w)).
    { apply count_if_full. rewrite (inv_permanent _ I) by (rewrite Hst; reflexivity).
      lia. }
    rewrite Forall_forall in *. intros wk Hin.
    specialize (Hws wk Hin). specialize (Hperm wk Hin).
    destruct wk as [perm p]. cbn in *. subst p.
    unfold live_permanent in Hperm. cbn in Hperm. subst perm. reflexivity.
  - intros spawns'. unfold Init. rewrite Hst. reflexivity.
Qed.


Lemma not_idle_quiescent (w : World) :
  Inv w -> not_idle w = false <-> quiescent w.
Proof.
  intros I. unfold not_idle, quiescent.
  pose proof (count_if_nonneg busy (threads w)) as Hb.
  rewrite <- count_if_none, <- (inv_active _ I), orb_false_iff, Z.ltb_ge.
  rewrite (inv_active _ I).
  destruct (queue_ (pool w)); cbn; split; intros [H1 H2]; try discriminate;
    split; auto; lia.
Qed.

(** X8: [Wait] returns exactly when the pool is quiescent: nothing is
    queued and no worker has fetched or is running an item.
    [TimedWait] returns true only in such a state, and returns false
    exactly when its timed wait reports a timeout. *)
Theorem X8_Wait_returns_when_quiescent ncpus (w : World) signalled :
  reachable ncpus w ->
  (Wait_returns w = true <-> quiescent w)
  /\ (TimedWait_test w = Some true <-> quiescent w)
  /\ TimedWait_test w <> Some false
  /\ (TimedWait_wake signalled w = Some true <-> signalled = true /\ quiescent w)
  /\ (TimedWait_wake signalled w = Some false <-> signalled = false).
Proof.
  intros Hr. apply reachable_Inv in Hr.
  pose proof (not_idle_quiescent w Hr) as Hq.
  unfold Wait_returns, TimedWait_wake, TimedWait_test.
  destruct (not_idle w); destruct signalled; cbn;
    repeat split; try discriminate; try tauto; intros;
    try (apply Hq; reflexivity);
    try match goal with
      | H : _ /\ quiescent w |- _ => destruct H as [_ H]; apply Hq in H; discriminate
      | H : quiescent w |- _ => apply Hq in H; discriminate
      | H : _ /\ _ |- _ => destruct H; discriminate
      end.
Qed.


Lemma queue_step a (w w' : World) :
  Inv w ->
  step a w = Some w' ->
  map runnable (queue_ (pool w)) ++ pushed a w
  = taken a w ++ map runnable (queue_ (pool w')).
Proof.
  intros I Hstep.
  destruct a as [spawns|task cur spawn| |i notified]; cbn in *.
  - rewrite app_nil_r.
    destruct (Init spawns w) as [[st w1]|] eqn:Hi; [|discriminate].
    cbn in Hstep. inversion Hstep; subst; clear Hstep.
    unfold Init in Hi.
    destruct (negb (IsUninitialized (pool_status_ (pool w)))).
    + inversion Hi; subst. reflexivity.
    + cbv zeta in Hi. apply Init_loop_effect in Hi as (_ & _ & _ & _ & _ & Hq & _).
      rewrite Hq. reflexivity.
  - inversion Hstep; subst; clear Hstep.
    destruct (ok (fst (Submit task cur spawn w))) eqn:Hok.
    + apply Submit_effect in Hok as (_ & _ & _ & _ & _ & _ & Hq & _).
      rewrite Hq, map_app. reflexivity.
    + apply Submit_rejected_unchanged in Hok as [Hp _].
      rewrite Hp, app_nil_r. reflexivity.
  - inversion Hstep; subst; clear Hstep. rewrite app_nil_r.
    assert (Hq : queue_ (pool (shutdown_world (Shutdown w))) = []).
    { unfold Shutdown, Shutdown_loop. cbv zeta. destruct (0 <? _); reflexivity. }
    rewrite Hq, app_nil_r. reflexivity.
  - rewrite app_nil_r, Hstep.
    pose proof Hstep as Hs. unfold worker_step in Hs.
    destruct (threads w !! i) as [wk|] eqn:Hl; [|discriminate]. clear Hs.
    assert (Hlen : (i < length (threads w))%nat) by (eapply lookup_lt_Some; eassumption).
    destruct (worker_step_effect i notified w w' wk I Hl Hstep)
      as (_ & _ & _ & _ & Hcase).
    destruct Hcase as [(e & rest & Hq & Hq' & _ & _ & Ht & _)
                      |[(Hq & Hq' & _ & Ht & _)
                      |[(Hq & Hq' & _ & Ht & _)
                      |(e & _ & Hq' & Ht & _)]]];
      rewrite Ht, list_lookup_insert_eq by exact Hlen; cbn;
      rewrite ?Hq, ?Hq'; reflexivity.
Qed.

(** X9: the queue is first-in first-out across every interleaving: the
    items in the queue at the start followed by the items pushed by
    accepted [Submit]s, in order, are the items taken from the queue
    (fetched by a worker or dropped by [Shutdown]), in order, followed
    by the items still queued. *)
Theorem X9_queue_is_fifo ncpus acts : forall (w w' : World),
  reachable ncpus w ->
  run acts w = Some w' ->
  map runnable (queue_ (pool w)) ++ pushes acts w
  = takes acts w ++ map runnable (queue_ (pool w')).
Proof.
  induction acts as [|a acts IH]; intros w w' Hr Hrun; cbn in *.
  - inversion Hrun; subst. rewrite app_nil_r. reflexivity.
  - destruct (step a w) as [w1|] eqn:Hstep; [|discriminate].
    pose proof (queue_step a w w1 (reachable_Inv _ _ Hr) Hstep) as H1.
    pose proof (IH w1 w' (reach_step _ _ _ _ Hr Hstep) Hrun) as H2.
    rewrite app_assoc, H1, <- app_assoc, H2, app_assoc. reflexivity.
Qed.

Lemma count_neutral t (evs : list (@Event Runnable)) :
  Forall (fun ev => forall t, ev <> EvAddRef t /\ ev <> EvRelease t) evs ->
  count_if (is_addref t) evs = 0 /\ count_if (is_release t) evs = 0.
Proof.
  induction 1 as [|ev evs Hev _ [IH1 IH2]]; [auto|].
  cbn. rewrite IH1, IH2.
  destruct ev; cbn; auto; exfalso.
  - apply (proj1 (Hev t0)). reflexivity.
  - apply (proj2 (Hev t0)). reflexivity.
Qed.

Lemma count_started t (ws : list Worker) :
  Forall (fun wk => pc wk = WStart) ws -> count_if (fetched_holds t) ws = 0.
Proof.
  induction 1 as [|wk ws H _ IH]; [reflexivity|].
  cbn. rewrite IH. unfold fetched_holds. rewrite H. reflexivity.
Qed.

Lemma count_dropped t (q : list QueueEntry) :
  count_if (@is_release Runnable t) (map EvRelease (omap trace q))
  = count_if (entry_holds t) q.
Proof.
  induction q as [|e q IH]; [reflexivity|].
  cbn. unfold entry_holds at 1. destruct (trace e) as [t'|]; cbn.
  - rewrite IH. destruct (decide (t' = t)) as [->|Hne].
    + rewrite !bool_decide_eq_true_2 by reflexivity. reflexivity.
    + rewrite !bool_decide_eq_false_2 by congruence. reflexivity.
  - exact IH.
Qed.

Lemma count_release_of t (e : QueueEntry) :
  count_if (@is_release Runnable t) (release_of e) = if entry_holds t e then 1 else 0.
Proof.
  unfold release_of, entry_holds. destruct (trace e) as [t'|]; cbn; [|reflexivity].
  destruct (decide (t' = t)) as [->|Hne].
  - rewrite !bool_decide_eq_true_2 by reflexivity. reflexivity.
  - rewrite !bool_decide_eq_false_2 by congruence. reflexivity.
Qed.

Lemma trace_balance_step t a (w w' : World) :
  Inv w ->
  step a w = Some w' ->
  count_if (is_addref t) (log w') - count_if (is_release t) (log w')
  - count_if (entry_holds t) (queue_ (pool w'))
  - count_if (fetched_holds t) (threads w')
  = count_if (is_addref t) (log w) - count_if (is_release t) (log w)
    - count_if (entry_holds t) (queue_ (pool w))
    - count_if (fetched_holds t) (threads w).
Proof.
  intros I Hstep.
  destruct a as [spawns|task cur spawn| |i notified]; cbn in *.
  - destruct (Init spawns w) as [[st w1]|] eqn:Hi; [|discriminate].
    cbn in Hstep. inversion Hstep; subst; clear Hstep.
    unfold Init in Hi.
    destruct (negb (IsUninitialized (pool_status_ (pool w)))).
    + inversion Hi; subst. reflexivity.
    + cbv zeta in Hi.
      apply Init_loop_effect in Hi
        as (_ & _ & _ & _ & _ & Hq & ws & evs & Ht & _ & Hws & Hlog & Hevs).
      cbn in *. rewrite Hq, Ht, Hlog, !count_if_app.
      destruct (count_neutral t evs Hevs) as [-> ->].
      rewrite (count_started t ws Hws). lia.
  - inversion Hstep; subst; clear Hstep.
    destruct (ok (fst (Submit task cur spawn w))) eqn:Hok.
    + apply Submit_effect in Hok
        as (_ & _ & _ & _ & _ & _ & Hq & ws & evs & Ht & Hws & Hlog & Hevs & _).
      rewrite Hq, Ht, Hlog, !count_if_app.
      destruct (count_neutral t evs Hevs) as [-> ->].
      rewrite (count_started t ws Hws). cbn. unfold entry_holds. cbn.
      destruct cur as [t'|]; cbn.
      * destruct (decide (t' = t)) as [->|Hne].
        -- rewrite !bool_decide_eq_true_2 by reflexivity.
           lia.
        -- rewrite bool_decide_eq_false_2 by congruence.
           rewrite bool_decide_eq_false_2 by congruence.
           lia.
      * rewrite bool_decide_eq_false_2 by discriminate. lia.
    + destruct (Submit_rejected_log task cur spawn w Hok) as (evs & Hlog & Hevs).
      apply Submit_rejected_unchanged in Hok as [Hp Ht].
      rewrite Hp, Ht, Hlog, !count_if_app.
      destruct (count_neutral t evs Hevs) as [-> ->]. lia.
  - inversion Hstep; subst; clear Hstep.
    rewrite Shutdown_log, !count_if_app, count_dropped.
    assert (Hq : queue_ (pool (shutdown_world (Shutdown w))) = []
                 /\ threads (shutdown_world (Shutdown w)) = threads w).
    { unfold Shutdown, Shutdown_loop. cbv zeta. destruct (0 <? _); auto. }
    destruct Hq as [-> ->]. cbn.
    assert (Hnone : count_if (@is_addref Runnable t)
                      (map EvRelease (omap trace (queue_ (pool w)))) = 0).
    { induction (omap trace (queue_ (pool w))) as [|x l IHl]; [reflexivity|].
      cbn. exact IHl. }
    rewrite Hnone. lia.
  - pose proof Hstep as Hs. unfold worker_step in Hs.
    destruct (threads w !! i) as [wk|] eqn:Hl; [|discriminate]. clear Hs.
    destruct (worker_step_effect i notified w w' wk I Hl Hstep)
      as (_ & _ & _ & _ & Hcase).
    assert (Hold : (forall e', pc wk <> WFetched e') -> fetched_holds t wk = false).
    { intros Hpc. unfold fetched_holds. destruct (pc wk); try reflexivity.
      exfalso. eapply Hpc. reflexivity. }
    destruct Hcase as [(e & rest & Hq & Hq' & _ & Hpc & Ht & _ & Hlog)
                      |[(Hq & Hq' & Hpc & Ht & _ & Hlog)
                      |[(Hq & Hq' & Hpc & Ht & _ & Hlog)
                      |(e & Hpc & Hq' & Ht & _ & Hlog)]]];
      rewrite Ht, Hlog, ?Hq, ?Hq', (count_if_insert _ _ _ _ _ Hl);
      try rewrite (Hold Hpc); cbn.
    + destruct (entry_holds t e); lia.
    + lia.
    + lia.
    + assert (Hf : fetched_holds t wk = entry_holds t e)
        by (unfold fetched_holds; rewrite Hpc; reflexivity).
      rewrite Hf, !count_if_app. cbn. rewrite !count_if_app, count_release_of. cbn.
      assert (Hno : count_if (@is_addref Runnable t) (release_of e) = 0).
      { unfold release_of. destruct (trace e); reflexivity. }
      rewrite Hno. destruct (entry_holds t e); lia.
Qed.

(** X10: trace references are balanced.  In every reachable state and
    for every trace, the number of [AddRef] calls made by [Submit]
    equals the number of [Release] calls made so far plus the number of
    queue entries holding the trace plus the number of workers that
    have fetched such an entry and not yet released it: no reference
    is leaked and none is released twice. *)
Theorem X10_trace_references_balance ncpus t (w : World) :
  reachable ncpus w ->
  count_if (is_addref t) (log w)
  = count_if (is_release t) (log w)
    + count_if (entry_holds t) (queue_ (pool w))
    + count_if (fetched_holds t) (threads w).
Proof.
  induction 1 as [b Hn Hb|a w w' Hr IH Hs].
  - reflexivity.
  - pose proof (trace_balance_step t a w w' (reachable_Inv _ _ Hr) Hs). lia.
Qed.







End PoolExtras.

(** * Further properties of FutureTask *)

Section FutureTaskExtras.

Context {T : Type}.
Local Abbreviation FutureTask := (@FutureTask T).

Lemma called_app (evs1 evs2 : list FutureEvent) :
  called (evs1 ++ evs2) = called evs1 ++ called evs2.
Proof. apply omap_app. Qed.

Lemma Run_called (ft : FutureTask) : called (snd (FutureTask_Run ft)) = listeners_ ft.
Proof.
  unfold called. destruct (decide (state_ ft = kTaskAbortedState)) as [Ha|Hn].
  - rewrite Run_aborted by assumption. cbn. rewrite omap_app. cbn.
    rewrite omap_listener_failure, app_nil_r. reflexivity.
  - rewrite Run_not_aborted by assumption. cbn. rewrite omap_app. cbn.
    rewrite omap_listener_notify, app_nil_r. reflexivity.
Qed.

Lemma Run_done (ft : FutureTask) : is_done (fst (FutureTask_Run ft)) = true.
Proof.
  unfold is_done. destruct (decide (state_ ft = kTaskAbortedState)) as [Ha|Hn].
  - rewrite Run_aborted by assumption. cbn.
    rewrite (bool_decide_eq_true_2 _ Ha). apply orb_true_r.
  - rewrite Run_not_aborted by assumption. reflexivity.
Qed.

Lemma Abort_done (ft : FutureTask) :
  is_done ft = true ->
  is_done (snd (fst (FutureTask_Abort ft))) = true
  /\ called (snd (FutureTask_Abort ft)) = [].
Proof.
  unfold is_done, FutureTask_Abort. intros Hd.
  destruct (decide (state_ ft <> kTaskFinishedState)) as [Hne|He]; [|auto].
  destruct (Task_Abort (task_ ft)) as [[|] t]; cbn; auto.
Qed.


Lemma apply_ops_app ops1 : forall ops2 (ft : FutureTask),
  apply_ops (ops1 ++ ops2) ft
  = (fst (apply_ops ops2 (fst (apply_ops ops1 ft))),
     snd (apply_ops ops1 ft) ++ snd (apply_ops ops2 (fst (apply_ops ops1 ft)))).
Proof.
  induction ops1 as [|op ops1 IH]; intros ops2 ft; cbn [app apply_ops].
  - cbn [fst snd app]. destruct (apply_ops ops2 ft); reflexivity.
  - destruct (apply_op op ft) as [ft1 evs1]. rewrite IH.
    destruct (apply_ops ops1 ft1) as [ft2 evs2]. cbn [fst snd].
    rewrite app_assoc. reflexivity.
Qed.

Lemma apply_ops_cons op ops (ft : FutureTask) :
  apply_ops (op :: ops) ft
  = (fst (apply_ops ops (fst (apply_op op ft))),
     snd (apply_op op ft) ++ snd (apply_ops ops (fst (apply_op op ft)))).
Proof.
  cbn [apply_ops]. destruct (apply_op op ft) as [ft1 evs1]. cbn [fst snd].
  destruct (apply_ops ops ft1); reflexivity.
Qed.

(** On a future that is done, [Abort] and [AddListener] leave it done
    (and Aborted if it was), store nothing, and call each listener
    as it is registered. *)
Lemma ops_on_done ops : forall ft : FutureTask,
  Forall (fun op => is_run op = false) ops ->
  is_done ft = true ->
  is_done (fst (apply_ops ops ft)) = true
  /\ (state_ ft = kTaskAbortedState ->
      state_ (fst (apply_ops ops ft)) = kTaskAbortedState)
  /\ listeners_ (fst (apply_ops ops ft)) = listeners_ ft
  /\ called (snd (apply_ops ops ft)) = registered ops.
Proof.
  induction ops as [|op ops IH]; intros ft Hno Hd; [cbn; auto|].
  inversion Hno as [|? ? Hop Hops]; subst.
  rewrite apply_ops_cons. cbn [fst snd]. rewrite called_app.
  destruct op as [cb| |]; [| |discriminate]; cbn [apply_op];
    [change (registered (OpAddListener cb :: ops)) with (cb :: registered ops)
    |change (registered (OpAbort :: ops)) with (registered ops)].
  - rewrite (AddListener_terminal cb ft Hd). cbn [fst snd].
    destruct (IH ft Hops Hd) as (Hd' & Ha' & Hl' & Hc').
    rewrite Hc'. repeat split; auto.
    unfold called, notify, status. destruct (ok (status_ ft)); reflexivity.
  - assert (Hab : is_done (snd (fst (FutureTask_Abort ft))) = true
                  /\ (state_ ft = kTaskAbortedState ->
                      state_ (snd (fst (FutureTask_Abort ft))) = kTaskAbortedState)
                  /\ listeners_ (snd (fst (FutureTask_Abort ft))) = listeners_ ft
                  /\ called (snd (FutureTask_Abort ft)) = []).
    { unfold is_done in *. unfold FutureTask_Abort.
      destruct (decide (state_ ft <> kTaskFinishedState)); [|auto].
      destruct (Task_Abort (task_ ft)) as [[|] t]; cbn; auto. }
    destruct Hab as (Hd1 & Ha1 & Hl1 & Hc1).
    destruct (FutureTask_Abort ft) as [[b ft1] evs1]. cbn in *.
    destruct (IH ft1 Hops Hd1) as (Hd' & Ha' & Hl' & Hc').
    rewrite Hc1, Hc', Hl', Hl1. repeat split; auto.
Qed.

(** Calls made before [Run] on a Pending future: listeners registered
    before the first successful [Abort] are stored, those registered
    after it are called at once. *)
Lemma ops_on_pending ops : forall ft : FutureTask,
  Forall (fun op => is_run op = false) ops ->
  state_ ft = kTaskPendingState ->
  exists early late,
    registered ops = early ++ late
    /\ listeners_ (fst (apply_ops ops ft)) = listeners_ ft ++ early
    /\ called (snd (apply_ops ops ft)) = late
    /\ (state_ (fst (apply_ops ops ft)) <> kTaskAbortedState -> late = []).
Proof.
  induction ops as [|op ops IH]; intros ft Hno Hp.
  - exists [], []. cbn. rewrite app_nil_r. auto.
  - inversion Hno as [|? ? Hop Hops]; subst.
    rewrite apply_ops_cons. cbn [fst snd]. rewrite called_app.
    destruct op as [cb| |]; [| |discriminate]; cbn [apply_op];
      [change (registered (OpAddListener cb :: ops)) with (cb :: registered ops)
      |change (registered (OpAbort :: ops)) with (registered ops)].
    + unfold FutureTask_AddListener.
      rewrite decide_True by (rewrite Hp; split; discriminate). cbn [fst snd].
      destruct (IH (mkFutureTask (state_ ft) (status_ ft) (task_ ft)
                      (listeners_ ft ++ [cb]) (latch_ ft)) Hops Hp)
        as (early & late & Hreg & Hl & Hc & Hlate).
      exists (cb :: early), late. cbn in *. rewrite Hreg, Hl, Hc, <- app_assoc.
      auto.
    + assert (Hab : called (snd (FutureTask_Abort ft)) = []
                    /\ listeners_ (snd (fst (FutureTask_Abort ft))) = listeners_ ft
                    /\ (state_ (snd (fst (FutureTask_Abort ft))) = kTaskPendingState
                        \/ state_ (snd (fst (FutureTask_Abort ft))) = kTaskAbortedState)).
      { unfold FutureTask_Abort.
        destruct (decide (state_ ft <> kTaskFinishedState)); [|auto].
        destruct (Task_Abort (task_ ft)) as [[|] t]; cbn; auto. }
      destruct Hab as (Hc1 & Hl1 & Hs1).
      destruct (FutureTask_Abort ft) as [[b ft1] evs1]. cbn in *.
      rewrite Hc1. cbn.
      destruct Hs1 as [Hp1|Ha1].
      * destruct (IH ft1 Hops Hp1) as (early & late & Hreg & Hl & Hc & Hlate).
        exists early, late. rewrite Hl, Hl1. auto.
      * assert (Hd1 : is_done ft1 = true).
        { unfold is_done. rewrite (bool_decide_eq_true_2 _ Ha1). apply orb_true_r. }
        destruct (ops_on_done ops ft1 Hops Hd1) as (_ & Ha' & Hl' & Hc').
        exists [], (registered ops). rewrite Hl', Hl1, app_nil_r.
        repeat split; auto. intros Hn. exfalso. apply Hn, Ha', Ha1.
Qed.

(** X13: on a new FutureTask that is run once, every registered
    listener is called exactly once, whatever [Abort]s are mixed in:
    the listeners called are a permutation of those registered.  The
    order of the calls is: listeners registered after a successful
    [Abort] that preceded [Run] (called at registration), then those
    registered before it (called by [Run]), then those registered
    after [Run].  When the task was not aborted before [Run], this is
    the registration order. *)
Theorem X13_listeners_called_exactly_once
    (default_status : Status) (task : @Task T) ops1 ops2 :
  Forall (fun op => is_run op = false) ops1 ->
  Forall (fun op => is_run op = false) ops2 ->
  exists early late,
    registered ops1 = early ++ late
    /\ called (snd (apply_ops (ops1 ++ OpRun :: ops2)
                      (FutureTask_new default_status task)))
       = late ++ early ++ registered ops2
    /\ called (snd (apply_ops (ops1 ++ OpRun :: ops2)
                      (FutureTask_new default_status task)))
       ≡ₚ registered (ops1 ++ OpRun :: ops2)
    /\ (is_aborted (fst (apply_ops ops1 (FutureTask_new default_status task)))
        = false ->
        called (snd (apply_ops (ops1 ++ OpRun :: ops2)
                       (FutureTask_new default_status task)))
        = registered (ops1 ++ OpRun :: ops2)).
Proof.
  intros Hno1 Hno2.
  set (ft0 := FutureTask_new default_status task).
  destruct (ops_on_pending ops1 ft0 Hno1 eq_refl)
    as (early & late & Hreg & Hl & Hc & Hlate).
  set (ft1 := fst (apply_ops ops1 ft0)) in *.
  destruct (ops_on_done ops2 (fst (FutureTask_Run ft1)) Hno2 (Run_done ft1))
    as (_ & _ & _ & Hc2).
  assert (Hall : called (snd (apply_ops (ops1 ++ OpRun :: ops2) ft0))
                 = late ++ early ++ registered ops2).
  { rewrite apply_ops_app. cbn [snd]. rewrite called_app, Hc.
    rewrite apply_ops_cons. cbn [snd fst apply_op]. rewrite called_app.
    fold ft1. rewrite Run_called, Hl, Hc2. reflexivity. }
  assert (Hregall : registered (ops1 ++ OpRun :: ops2)
                    = early ++ late ++ registered ops2).
  { unfold registered at 1. rewrite omap_app. cbn.
    fold (registered ops1). fold (registered ops2).
    rewrite Hreg, <- app_assoc. reflexivity. }
  exists early, late. split; [exact Hreg|]. split; [exact Hall|]. split.
  - rewrite Hall, Hregall, !app_assoc.
    apply Permutation_app_tail, Permutation_app_comm.
  - intros Hna. rewrite Hall, Hregall.
    rewrite Hlate; [reflexivity|].
    unfold is_aborted in Hna. apply bool_decide_eq_false in Hna. exact Hna.
Qed.

End FutureTaskExtras.

(** * Further properties of the executor *)

Section ExecutorExtras.

Context {T : Type}.
Variable default_status : Status.

Local Abbreviation ExecWorld := (@ExecWorld T).
Local Abbreviation PoolWorld := (@World FutureRef).
Local Abbreviation PoolWorker := (@Worker FutureRef).












(** X14: an accepted [TaskExecutor::Submit] allocates one new
    [FutureTask] (Pending, latch at one, no listeners), leaves every
    other object as it is, stores the new object in the caller's
    handle when one is given, and appends a queue entry for that same
    object at the tail of the pool's queue. *)
Theorem X14_accepted_submit_enqueues_the_handle
    task future cur spawn (x : ExecWorld) :
  ok (fst (fst (TaskExecutor_Submit default_status task future cur spawn x))) = true ->
  fst (fst (TaskExecutor_Submit default_status task future cur spawn x)) = OK
  /\ snd (fst (TaskExecutor_Submit default_status task future cur spawn x))
     = match future with
       | Some _ => Some (Some (fresh (dom (heap x))))
       | None => None
       end
  /\ heap x !! fresh (dom (heap x)) = None
  /\ heap (snd (TaskExecutor_Submit default_status task future cur spawn x))
       !! fresh (dom (heap x))
     = Some (FutureTask_new default_status task, [])
  /\ (forall r, r <> fresh (dom (heap x)) ->
        heap (snd (TaskExecutor_Submit default_status task future cur spawn x)) !! r
        = heap x !! r)
  /\ queue_ (pool (thread_pool_
        (snd (TaskExecutor_Submit default_status task future cur spawn x))))
     = queue_ (pool (thread_pool_ x)) ++ [mkEntry (fresh (dom (heap x))) cur].
Proof.
  unfold TaskExecutor_Submit. cbv zeta.
  destruct (Submit (fresh (dom (heap x))) cur spawn (thread_pool_ x)) as [s p] eqn:Hs.
  cbn. intros Hok.
  assert (Hok' : ok (fst (Submit (fresh (dom (heap x))) cur spawn (thread_pool_ x)))
                 = true) by (rewrite Hs; exact Hok).
  apply Submit_effect in Hok' as (Hst & _ & _ & _ & _ & _ & Hq & _).
  rewrite Hs in Hst, Hq. cbn in Hst, Hq.
  split; [exact Hst|]. split; [reflexivity|].
  split; [apply not_elem_of_dom, is_fresh|].
  split; [apply lookup_insert_eq|].
  split; [|exact Hq].
  intros r Hne. apply lookup_insert_ne. auto.
Qed.










End ExecutorExtras.

Section FutureWaitExtras.

Context {T : Type}.

Local Abbreviation FutureTask := (@FutureTask T).

Lemma apply_op_latch op (ft : FutureTask) :
  latch_ (fst (apply_op op ft))
  = if is_run op then Nat.pred (latch_ ft) else latch_ ft.
Proof.
  destruct op as [cb| |]; cbn.
  - unfold FutureTask_AddListener.
    destruct (decide _); [reflexivity|]. destruct (ok (status_ ft)); reflexivity.
  - unfold FutureTask_Abort.
    destruct (decide _); [|reflexivity].
    destruct (Task_Abort (task_ ft)) as [[|] t]; reflexivity.
  - destruct (decide (state_ ft = kTaskAbortedState)) as [Ha|Hn].
    + rewrite Run_aborted by assumption. reflexivity.
    + rewrite Run_not_aborted by assumption. reflexivity.
Qed.

Lemma apply_op_done op (ft : FutureTask) :
  is_done ft = true \/ is_run op = true -> is_done (fst (apply_op op ft)) = true.
Proof.
  destruct op as [cb| |]; cbn; intros [H|H]; try discriminate.
  - unfold FutureTask_AddListener.
    destruct (decide _); [exact H|]. destruct (ok (status_ ft)); exact H.
  - pose proof (Abort_done ft H) as [Hd _].
    destruct (FutureTask_Abort ft) as [[b ft'] evs]. exact Hd.
  - apply Run_done.
  - apply Run_done.
Qed.

Lemma apply_ops_latch ops : forall ft : FutureTask,
  latch_ (fst (apply_ops ops ft))
  = (latch_ ft - length (filter (fun op => is_run op = true) ops))%nat.
Proof.
  induction ops as [|op ops IH]; intros ft.
  - cbn. lia.
  - rewrite apply_ops_cons. cbn [fst]. rewrite IH, apply_op_latch.
    rewrite filter_cons. destruct (is_run op) eqn:Hop.
    + rewrite decide_True by reflexivity. cbn [length]. lia.
    + rewrite decide_False by discriminate. reflexivity.
Qed.

Lemma apply_ops_done ops : forall ft : FutureTask,
  is_done ft = true \/ existsb is_run ops = true ->
  is_done (fst (apply_ops ops ft)) = true.
Proof.
  induction ops as [|op ops IH]; intros ft H.
  - cbn in *. destruct H as [H|H]; [exact H|discriminate].
  - rewrite apply_ops_cons. cbn [fst]. apply IH.
    cbn [existsb] in H. destruct (is_run op) eqn:Hop.
    + left. apply apply_op_done. right. exact Hop.
    + destruct H as [H|H]; [|right; exact H].
      left. apply apply_op_done. left. exact H.
Qed.

(** X17: [FutureTask::Wait] returns exactly when [Run] has been
    called: whatever calls were made on a new [FutureTask], its latch
    is at zero if and only if one of them was [Run], and then the
    task is done; without a [Run] the latch stays at one, also after
    an [Abort]. *)
Theorem X17_Wait_returns_once_Run_was_called
    (default_status : Status) (task : @Task T) ops :
  FutureTask_Wait_returns (fst (apply_ops ops (FutureTask_new default_status task)))
  = existsb is_run ops
  /\ (existsb is_run ops = true ->
      is_done (fst (apply_ops ops (FutureTask_new default_status task))) = true)
  /\ (existsb is_run ops = false ->
      latch_ (fst (apply_ops ops (FutureTask_new default_status task))) = 1%nat).
Proof.
  assert (Hcount : forall l : list (@FutureOp),
            existsb is_run l
            = negb (Nat.eqb (length (filter (fun op => is_run op = true) l)) 0)).
  { induction l as [|op l IH]; [reflexivity|].
    cbn [existsb]. rewrite filter_cons. destruct (is_run op) eqn:Hop.
    - rewrite decide_True by reflexivity. reflexivity.
    - rewrite decide_False by discriminate. exact IH. }
  unfold FutureTask_Wait_returns. rewrite apply_ops_latch, Hcount.
  change (latch_ (FutureTask_new default_status task)) with 1%nat.
  destruct (length (filter (fun op => is_run op = true) ops)) as [|n] eqn:Hlen.
  - split; [reflexivity|]. split; [discriminate|reflexivity].
  - split; [cbn; replace (0 - n)%nat with 0%nat by lia; reflexivity|].
    split; [|discriminate]. intros _. apply apply_ops_done. right.
    rewrite Hcount, Hlen. reflexivity.
Qed.

End FutureWaitExtras.

(** ** The further properties on the example executions *)

Lemma example_builder_min_Built : Built 4 example_builder_min.
Proof.
  apply (Built_queue 4 2 (mkBuilder "pool" 1 2 INT_MAX (FromMilliseconds 500)));
    [|unfold int_range, INT_MIN, INT_MAX; lia|reflexivity].
  apply (Built_max 4 2 (mkBuilder "pool" 1 4 INT_MAX (FromMilliseconds 500)));
    [|unfold int_range, INT_MIN, INT_MAX; lia|reflexivity].
  apply (Built_min 4 1 (ThreadPoolBuilder_new 4 "pool"));
    [|unfold int_range, INT_MIN, INT_MAX; lia|reflexivity].
  apply Built_new.
Qed.

Lemma int_range_4 : int_range 4.
Proof. unfold int_range, INT_MIN, INT_MAX. lia. Qed.

Lemma example_permanent_reachable : reachable 4 example_permanent.
Proof.
  apply run_from_reachable; [|vm_compute; eauto].
  apply reach_new; [apply int_range_4|apply example_builder_min_Built].
Qed.

(** X1 on the loaded example pool: two threads, none of them running
    an item yet. *)
Lemma X1_thread_count_bounds_witness :
  0 <= active_threads_ (pool example_loaded)
  /\ active_threads_ (pool example_loaded) <= num_threads_ (pool example_loaded)
  /\ num_threads_ (pool example_loaded)
     <= Z.max (min_threads_ (pool example_loaded)) (max_threads_ (pool example_loaded)).
Proof.
  apply (X1_thread_count_bounds 4 example_loaded example_loaded_reachable).
Defined.

(** X2 on the loaded example pool, whose queue is full. *)
Lemma X2_queue_never_exceeds_max_witness :
  length (queue_ (pool example_loaded)) = 2%nat
  /\ Z.of_nat (length (queue_ (pool example_loaded)))
     <= max_queue_size_ (pool example_loaded).
Proof.
  split; [reflexivity|].
  apply (X2_queue_never_exceeds_max 4 example_loaded example_loaded_reachable).
Defined.

(** X3 on the pool with one permanent worker. *)
Lemma X3_permanent_workers_stay_witness :
  ok (pool_status_ (pool example_permanent)) = true
  /\ count_if live_permanent (threads example_permanent)
     = min_threads_ (pool example_permanent)
  /\ min_threads_ (pool example_permanent) <= num_threads_ (pool example_permanent).
Proof.
  split; [reflexivity|].
  apply (X3_permanent_workers_stay 4 example_permanent example_permanent_reachable).
  reflexivity.
Defined.

(** X4 on the loaded example pool. *)
Lemma X4_queued_work_has_a_worker_witness :
  1 <= max_threads_ (pool example_loaded)
  /\ ok (pool_status_ (pool example_loaded)) = true
  /\ 1 <= num_threads_ (pool example_loaded)
  /\ exists i wk, threads example_loaded !! i = Some wk /\ live wk = true.
Proof.
  assert (H : 1 <= max_threads_ (pool example_loaded)) by (vm_compute; discriminate).
  split; [exact H|].
  apply (X4_queued_work_has_a_worker 4 example_loaded example_loaded_reachable H).
  vm_compute. discriminate.
Defined.

(** X5 on the loaded example pool, shut down and drained. *)
Lemma X5_shutdown_is_final_witness :
  run example_drain (shutdown_world (Shutdown example_loaded)) = Some example_stopped
  /\ pool_status_ (pool example_stopped) = shut_down_status
  /\ (forall task cur spawn,
        Submit task cur spawn example_stopped = (shut_down_status, example_stopped))
  /\ (forall spawns,
        Init spawns example_stopped
        = Some (NotSupported "The thread pool is already initialized", example_stopped)).
Proof.
  assert (H : run example_drain (shutdown_world (Shutdown example_loaded))
              = Some example_stopped) by (vm_compute; reflexivity).
  split; [exact H|].
  apply (X5_shutdown_is_final example_loaded example_drain example_stopped H).
Defined.

(** X6 on the builder with one permanent worker. *)
Lemma X6_Build_starts_permanent_workers_witness :
  Z.to_nat (b_min_threads_ example_builder_min) = 1%nat
  /\ exists w : @World nat,
       Build (fun _ => OK) example_builder_min = Some (OK, w)
       /\ pool_status_ (pool w) = OK
       /\ queue_ (pool w) = []
       /\ num_threads_ (pool w) = b_min_threads_ example_builder_min
       /\ length (threads w) = Z.to_nat (b_min_threads_ example_builder_min)
       /\ Forall (fun wk => wk = mkWorker true WStart) (threads w)
       /\ (forall spawns',
             Init spawns' w
             = Some (NotSupported "The thread pool is already initialized", w)).
Proof.
  split; [reflexivity|].
  apply (X6_Build_starts_permanent_workers 4 example_builder_min (fun _ => OK)
           int_range_4 example_builder_min_Built).
  intros k _. reflexivity.
Defined.


(** X8 on the idle example pool. *)
Lemma X8_Wait_returns_when_quiescent_witness :
  (Wait_returns example_idle = true <-> quiescent example_idle)
  /\ (TimedWait_test example_idle = Some true <-> quiescent example_idle)
  /\ TimedWait_test example_idle <> Some false
  /\ (TimedWait_wake true example_idle = Some true
      <-> true = true /\ quiescent example_idle)
  /\ (TimedWait_wake true example_idle = Some false <-> true = false).
Proof.
  apply (X8_Wait_returns_when_quiescent 4 example_idle true example_idle_reachable).
Defined.

(** X9 on the execution that leads to the idle example pool. *)
Lemma X9_queue_is_fifo_witness :
  run example_work example_running = Some example_idle
  /\ map runnable (queue_ (pool example_running)) ++ pushes example_work example_running
     = takes example_work example_running ++ map runnable (queue_ (pool example_idle)).
Proof.
  assert (H : run example_work example_running = Some example_idle)
    by (vm_compute; reflexivity).
  split; [exact H|].
  apply (X9_queue_is_fifo 4 example_work example_running example_idle
           example_running_reachable H).
Defined.

(** X10 on the loaded example pool and the trace of its first item. *)
Lemma X10_trace_references_balance_witness :
  count_if (is_addref 5%nat) (log example_loaded) = 1
  /\ count_if (is_addref 5%nat) (log example_loaded)
     = count_if (is_release 5%nat) (log example_loaded)
       + count_if (entry_holds 5%nat) (queue_ (pool example_loaded))
       + count_if (fetched_holds 5%nat) (threads example_loaded).
Proof.
  split; [vm_compute; reflexivity|].
  apply (X10_trace_references_balance 4 5%nat example_loaded example_loaded_reachable).
Defined.


(** X13 on a task that refuses to abort: one listener before [Run],
    one after. *)
Lemma X13_listeners_called_exactly_once_witness :
  registered example_ops_before = [7%nat]
  /\ exists early late,
       registered example_ops_before = early ++ late
       /\ called (snd (apply_ops (example_ops_before ++ OpRun :: example_ops_after)
                         (FutureTask_new OK (BoundTask OK false))))
          = late ++ early ++ registered example_ops_after
       /\ called (snd (apply_ops (example_ops_before ++ OpRun :: example_ops_after)
                         (FutureTask_new OK (BoundTask OK false))))
          ≡ₚ registered (example_ops_before ++ OpRun :: example_ops_after)
       /\ (is_aborted (fst (apply_ops example_ops_before
                             (FutureTask_new OK (BoundTask OK false))))
           = false ->
           called (snd (apply_ops (example_ops_before ++ OpRun :: example_ops_after)
                          (FutureTask_new OK (BoundTask OK false))))
           = registered (example_ops_before ++ OpRun :: example_ops_after)).
Proof.
  split; [reflexivity|].
  apply (X13_listeners_called_exactly_once OK (BoundTask OK false)
           example_ops_before example_ops_after).
  - repeat constructor.
  - repeat constructor.
Defined.

(** X14 on the example executor with a running pool. *)
Lemma X14_accepted_submit_enqueues_the_handle_witness :
  ok (fst (fst (TaskExecutor_Submit OK (BoundTask OK false) (Some None) None OK
                  example_exec_running))) = true
  /\ snd (fst (TaskExecutor_Submit OK (BoundTask OK false) (Some None) None OK
                 example_exec_running))
     = Some (Some (fresh (dom (heap example_exec_running))))
  /\ queue_ (pool (thread_pool_
        (snd (TaskExecutor_Submit OK (BoundTask OK false) (Some None) None OK
                example_exec_running))))
     = queue_ (pool (thread_pool_ example_exec_running))
       ++ [mkEntry (fresh (dom (heap example_exec_running))) None].
Proof.
  assert (H : ok (fst (fst (TaskExecutor_Submit OK (BoundTask OK false) (Some None)
                              None OK example_exec_running))) = true)
    by (vm_compute; reflexivity).
  split; [exact H|].
  destruct (X14_accepted_submit_enqueues_the_handle OK (BoundTask OK false)
              (Some None) None OK example_exec_running H)
    as (_ & Hh & _ & _ & _ & Hq).
  split; [exact Hh|exact Hq].
Defined.


